(** * A shallow embedding of the agent loop and its tools

    The development follows the Python sources:
    - [src/agent.py]            the [Agent] class (registry, transcript, turn loop);
    - [src/tools/base.py]       [BaseTool.__call__] (validate, then execute);
    - [src/tools/bash.py]       [SafeBashTool];
    - [src/tools/edit_file.py]  [EditFileTool].

    Python [str] values are modelled as [string] (so [lower] and [strip]
    act on ASCII letters and white space); the ordered [dict] holding the
    tools is an association list; the file system is a finite map from
    paths to nodes; the remote model and the operating system are oracles
    carried by the state. The constructors of the [anthropic] SDK
    ([MessageParam], [ContentBlockParam], [ToolParam]) are taken to build
    the dictionaries they describe, and [pydantic] and [pathlib] to behave
    as documented. Verbose logging has no effect on control flow and is
    left out. Unbounded loops take a [fuel] argument and return [None]
    when it runs out. *)

From Stdlib Require Import String Ascii List Bool Arith ZArith Lia Permutation.
From Stdlib Require Import DecimalString.
From stdpp Require Import gmap strings.
Import ListNotations.

Local Open Scope bool_scope.

(* ===================================================================== *)
(** * Part I: definitions *)
(* ===================================================================== *)

(** ** Python string operations used by the sources *)

Module PyStr.

(** [str.isspace] on one character (ASCII range): TAB..CR, FS..US, SPACE. *)
Definition isspace (c : ascii) : bool :=
  let n := nat_of_ascii c in
  ((9 <=? n) && (n <=? 13)) || ((28 <=? n) && (n <=? 32)).

Fixpoint lstrip (s : string) : string :=
  match s with
  | EmptyString => EmptyString
  | String c s' => if isspace c then lstrip s' else s
  end.

Fixpoint rstrip (s : string) : string :=
  match s with
  | EmptyString => EmptyString
  | String c s' =>
      match rstrip s' with
      | EmptyString => if isspace c then EmptyString else String c EmptyString
      | r => String c r
      end
  end.

(** [s.strip()] *)
Definition strip (s : string) : string := rstrip (lstrip s).

Definition lower_char (c : ascii) : ascii :=
  let n := nat_of_ascii c in
  if (65 <=? n) && (n <=? 90) then ascii_of_nat (n + 32) else c.

(** [s.lower()] *)
Fixpoint lower (s : string) : string :=
  match s with
  | EmptyString => EmptyString
  | String c s' => String (lower_char c) (lower s')
  end.

(** [s.startswith(p)] *)
Fixpoint startswith (s p : string) : bool :=
  match p, s with
  | EmptyString, _ => true
  | String _ _, EmptyString => false
  | String a p', String b s' => Ascii.eqb a b && startswith s' p'
  end.

(** [p in s] *)
Fixpoint str_in (p s : string) : bool :=
  startswith s p ||
  match s with
  | EmptyString => false
  | String _ s' => str_in p s'
  end.

(** Scanning for non-overlapping matches of a non-empty [old], left to
    right; [skip] counts the characters of the current match that are
    still to be passed over. *)
Fixpoint count_go (old : string) (skip : nat) (s : string) : nat :=
  match s with
  | EmptyString => 0
  | String _ s' =>
      match skip with
      | S k => count_go old k s'
      | O => if startswith s old
             then S (count_go old (String.length old - 1) s')
             else count_go old 0 s'
      end
  end.

(** [s.count(old)]; the empty string is counted [len(s) + 1] times. *)
Definition count (s old : string) : nat :=
  match old with
  | EmptyString => S (String.length s)
  | _ => count_go old 0 s
  end.

Fixpoint replace_go (old new : string) (skip : nat) (s : string) : string :=
  match s with
  | EmptyString => EmptyString
  | String c s' =>
      match skip with
      | S k => replace_go old new k s'
      | O => if startswith s old
             then new +:+ replace_go old new (String.length old - 1) s'
             else String c (replace_go old new 0 s')
      end
  end.

(** Replacing the empty string puts [new] before every character and at
    the end. *)
Fixpoint interleave (new s : string) : string :=
  match s with
  | EmptyString => new
  | String c s' => new +:+ String c (interleave new s')
  end.

(** [s.replace(old, new)] *)
Definition replace (s old new : string) : string :=
  match old with
  | EmptyString => interleave new s
  | _ => replace_go old new 0 s
  end.

(** [sep.join(parts)] *)
Fixpoint join (sep : string) (parts : list string) : string :=
  match parts with
  | [] => EmptyString
  | [x] => x
  | x :: rest => x +:+ sep +:+ join sep rest
  end.

Fixpoint take_word (s : string) : string :=
  match s with
  | EmptyString => EmptyString
  | String c s' => if isspace c then EmptyString else String c (take_word s')
  end.

(** [s.split()[0] if s.split() else ""]: the first whitespace-separated
    word, or the empty string when there is none. *)
Definition first_word (s : string) : string := take_word (lstrip s).

Fixpoint last_segment_go (sep : ascii) (acc s : string) : string :=
  match s with
  | EmptyString => acc
  | String c s' =>
      if Ascii.eqb c sep then last_segment_go sep EmptyString s'
      else last_segment_go sep (acc +:+ String c EmptyString) s'
  end.

(** [s.split(sep)[-1]] for a one-character separator. *)
Definition last_segment (sep : ascii) (s : string) : string :=
  last_segment_go sep EmptyString s.

(** [s.split(sep)] for a one-character separator. *)
Fixpoint split_go (sep : ascii) (acc s : string) : list string :=
  match s with
  | EmptyString => [acc]
  | String c s' =>
      if Ascii.eqb c sep then acc :: split_go sep EmptyString s'
      else split_go sep (acc +:+ String c EmptyString) s'
  end.

Definition split (sep : ascii) (s : string) : list string :=
  split_go sep EmptyString s.

(** [str(n)] for a natural number and for an integer. *)
Definition str_nat (n : nat) : string := NilZero.string_of_uint (Nat.to_uint n).
Definition str_int (z : Z) : string := NilZero.string_of_int (Z.to_int z).

Definition nl : string := String (ascii_of_nat 10) EmptyString.

(** Truthiness of a string: [if s:]. *)
Definition truthy (s : string) : bool := negb (String.eqb s EmptyString).



(** Used to state facts about [strip]: the first and the last character of a pattern are no white space (and
    the pattern is not empty). *)
Definition solid_head (p : string) : bool :=
  match p with String c _ => negb (isspace c) | EmptyString => false end.

Fixpoint solid_tail (p : string) : bool :=
  match p with
  | EmptyString => false
  | String c EmptyString => negb (isspace c)
  | String _ p' => solid_tail p'
  end.

End PyStr.

(** ** Exceptions

    The Python exceptions the sources raise, catch or format. [str_exn] is
    [str(e)], the text that the handlers interpolate into their messages.
    For a validation error it gives the title line and, per entry, the
    location and the message; the bracketed annotation that Pydantic adds
    after each message is left out. *)

Inductive exn : Type :=
  | PermissionError (path : string)
  | FileExistsError (path : string)
  | FileNotFoundError (path : string)
  | NotADirectoryError (path : string)
  | IsADirectoryError (path : string)
  | UnicodeDecodeError (reason : string)
  | TimeoutExpired (seconds : nat)
  | ValidationError (model : string) (errors : list (string * string))
  | Exception (msg : string).

Definition str_errno (code what path : string) : string :=
  "[Errno " +:+ code +:+ "] " +:+ what +:+ ": '" +:+ path +:+ "'".

Definition str_exn (e : exn) : string :=
  match e with
  | PermissionError p => str_errno "13" "Permission denied" p
  | FileExistsError p => str_errno "17" "File exists" p
  | FileNotFoundError p => str_errno "2" "No such file or directory" p
  | NotADirectoryError p => str_errno "20" "Not a directory" p
  | IsADirectoryError p => str_errno "21" "Is a directory" p
  | UnicodeDecodeError r => r
  | TimeoutExpired n =>
      "Command timed out after " +:+ PyStr.str_nat n +:+ " seconds"
  | ValidationError m errs =>
      PyStr.str_nat (length errs) +:+
      (match errs with [_] => " validation error for " | _ => " validation errors for " end)
      +:+ m +:+
      String.concat ""
        (map (fun le => PyStr.nl +:+ fst le +:+ PyStr.nl +:+ "  " +:+ snd le) errs)
  | Exception msg => msg
  end.

(** ** The file system seen through [pathlib]

    A path is its sequence of parts; the two roots (the working directory
    [[]] and ["/"]) always exist. A node records whether it may be written
    to. Each part sequence names its own node: links and [..] are not
    resolved. *)

Module Pathlib.

Definition Path : Type := list string.

Inductive Node : Type :=
  | Dir (writable : bool)
  | File (writable : bool) (text : option string).
    (** [text = None]: the bytes of the file are not valid UTF-8. *)

Definition FS : Type := gmap (list string) Node.

Definition keep_part (x : string) : bool :=
  negb (String.eqb x "") && negb (String.eqb x ".").

(** [Path(s)] *)
Definition of_str (s : string) : Path :=
  let parts := List.filter keep_part (PyStr.split "/"%char s) in
  if PyStr.startswith s "/" then "/" :: parts else parts.

(** [str(p)] *)
Definition to_str (p : Path) : string :=
  match p with
  | [] => "."
  | root :: rest =>
      if String.eqb root "/" then "/" +:+ PyStr.join "/" rest
      else PyStr.join "/" p
  end.

Definition is_root (p : Path) : bool :=
  match p with
  | [] => true
  | [root] => String.eqb root "/"
  | _ => false
  end.

(** [p.parent] *)
Definition parent (p : Path) : Path :=
  if is_root p then p else removelast p.

Definition node_at (fs : FS) (p : Path) : option Node :=
  if is_root p then Some (Dir true) else fs !! p.

(** [p.exists()] *)
Definition exists_ (fs : FS) (p : Path) : bool :=
  match node_at fs p with Some _ => true | None => false end.

(** [p.is_file()] *)
Definition is_file (fs : FS) (p : Path) : bool :=
  match node_at fs p with Some (File _ _) => true | _ => false end.

(** [p.is_dir()] *)
Definition is_dir (fs : FS) (p : Path) : bool :=
  match node_at fs p with Some (Dir _) => true | _ => false end.

(** [p.mkdir(parents=True, exist_ok=True)], walking from the root down:
    existing directories are passed, a missing part is created inside its
    (writable) parent, a file in the way raises. *)
Fixpoint mkdir_go (target above : Path) (todo : list string) (fs : FS)
  : exn + FS :=
  match todo with
  | [] => inr fs
  | x :: rest =>
      let q := above ++ [x] in
      match node_at fs q with
      | Some (Dir _) => mkdir_go target q rest fs
      | Some (File _ _) =>
          inl (match rest with
               | [] => FileExistsError (to_str target)
               | _ => NotADirectoryError (to_str target)
               end)
      | None =>
          match node_at fs above with
          | Some (Dir true) => mkdir_go target q rest (<[q := Dir true]> fs)
          | Some (Dir false) => inl (PermissionError (to_str q))
          | Some (File _ _) => inl (NotADirectoryError (to_str q))
          | None => inl (FileNotFoundError (to_str q))
          end
      end
  end.

Definition mkdir_parents (p : Path) (fs : FS) : exn + FS :=
  mkdir_go p [] p fs.

(** [p.read_text(encoding="utf-8")] *)
Definition read_text (fs : FS) (p : Path) : exn + string :=
  match node_at fs p with
  | Some (File _ (Some s)) => inr s
  | Some (File _ None) =>
      inl (UnicodeDecodeError "'utf-8' codec can't decode bytes: invalid start byte")
  | Some (Dir _) => inl (IsADirectoryError (to_str p))
  | None => inl (FileNotFoundError (to_str p))
  end.

(** [p.write_text(s, encoding="utf-8")] *)
Definition write_text (p : Path) (s : string) (fs : FS) : exn + FS :=
  match node_at fs p with
  | Some (File true _) => inr (<[p := File true (Some s)]> fs)
  | Some (File false _) => inl (PermissionError (to_str p))
  | Some (Dir _) => inl (IsADirectoryError (to_str p))
  | None =>
      match node_at fs (parent p) with
      | Some (Dir true) => inr (<[p := File true (Some s)]> fs)
      | Some (Dir false) => inl (PermissionError (to_str p))
      | Some (File _ _) => inl (NotADirectoryError (to_str p))
      | None => inl (FileNotFoundError (to_str p))
      end
  end.

(** Every directory on the way down to [base] exists. *)
Definition dirs_exist (fs : FS) (base : Path) : Prop :=
  forall m, m <> [] -> m `prefix_of` base -> is_dir fs m = true.

(** Nothing exists below [base] along [missing]. *)
Definition all_missing (fs : FS) (base : Path) (missing : list string) : Prop :=
  forall m, m <> [] -> m `prefix_of` missing -> node_at fs (base ++ m) = None.

End Pathlib.

(** ** The world outside the interpreter

    The file system, the log of the child processes spawned so far, and the
    operating system's answer to [subprocess.run]: given the argument
    vector and the file system, either a completed process or an exception,
    and the file system the child leaves behind. *)

Inductive CompletedProcess : Type :=
  | Completed (stdout stderr : string) (returncode : Z)
  | RunRaised (e : exn).

Record World : Type := mkWorld {
  fs : Pathlib.FS;
  spawned : list (list string);
  os_run : list string -> Pathlib.FS -> CompletedProcess * Pathlib.FS
}.

Definition set_fs (w : World) (fs' : Pathlib.FS) : World :=
  {| fs := fs'; spawned := spawned w; os_run := os_run w |}.

(** [subprocess.run(argv, ...)] *)
Definition subprocess_run (argv : list string) (w : World)
  : CompletedProcess * World :=
  let '(r, fs') := os_run w argv (fs w) in
  (r, {| fs := fs'; spawned := spawned w ++ [argv]; os_run := os_run w |}).

(** ** Tool arguments and [tools/base.py] *)

#[warnings="-register-all"]
Inductive JSON : Type :=
  | JNull
  | JBool (b : bool)
  | JInt (z : Z)
  | JStr (s : string)
  | JArr (items : list JSON)
  | JObj (fields : list (string * JSON)).

(** The [tool_use.input] dictionary, passed on as keyword arguments. *)
Abbreviation ToolInput := (gmap string JSON).

(** What a call of a tool comes to: a returned string or a raised
    exception, and the world it leaves. *)
Definition Outcome : Type := (exn + string) * World.

Module Base.

(** A required [str] field of a Pydantic model: the error entry
    (location, message) or the value. *)
Definition field_str (name : string) (kwargs : ToolInput)
  : (string * string) + string :=
  match kwargs !! name with
  | None => inl (name, "Field required")
  | Some (JStr s) => inr s
  | Some _ => inl (name, "Input should be a valid string")
  end.

Definition field_errors {A} (r : (string * string) + A) : list (string * string) :=
  match r with inl e => [e] | inr _ => [] end.

(** [class BaseTool(ABC)]: [input_model] is the constructor of the
    Pydantic model (it raises on invalid arguments), [execute] the
    abstract method. *)
Record BaseTool : Type := mkBaseTool {
  name : string;
  description : string;
  Input : Type;
  input_model : ToolInput -> exn + Input;
  execute : Input -> World -> Outcome;
  get_schema : JSON
}.

(** [BaseTool.__call__] *)
Definition __call__ (self : BaseTool) (kwargs : ToolInput) (w : World) : Outcome :=
  match input_model self kwargs with
  | inl e => (inl e, w)
  | inr validated_input => execute self validated_input w
  end.

End Base.

(** ** [tools/bash.py] *)

Module SafeBashTool.
Import PyStr.

Record BashInput : Type := { command : string }.

Definition BashInput_model (kwargs : ToolInput) : exn + BashInput :=
  match Base.field_str "command" kwargs with
  | inr c => inr {| command := c |}
  | r => inl (ValidationError "BashInput" (Base.field_errors r))
  end.

Definition SAFE_COMMANDS : list string :=
  [ "ls"; "cat"; "grep"; "find"; "head"; "tail"; "wc"; "du"; "df";
    "ps"; "pwd"; "whoami"; "date"; "echo"; "which"; "type"; "sort";
    "uniq"; "cut"; "awk"; "sed"; "tr"; "basename"; "dirname"; "file";
    "stat"; "realpath"; "readlink"; "uname"; "uptime"; "env"; "printenv" ].

Definition DANGEROUS_PATTERNS : list string :=
  [ "rm"; "mv"; "cp"; "mkdir"; "rmdir"; "touch"; "chmod"; "chown";
    "sudo"; "su"; "passwd"; "useradd"; "userdel"; "mount"; "umount";
    "kill"; "killall"; "pkill"; "wget"; "curl"; "ssh"; "scp"; "rsync";
    "git"; "pip"; "npm"; "make"; "gcc"; "python"; "node"; "ruby";
    ">"; ">>"; "tee"; "dd"; "fdisk"; "parted"; "mkfs"; "fsck" ].

(** The error for a command that contains [pattern]. *)
Definition blocked_message (pattern : string) : string :=
  "Error: Command contains dangerous pattern '" +:+ pattern +:+
  "' and is blocked for security".

(** [_validate_command_safety]. [patterns] is [DANGEROUS_PATTERNS] in the
    order in which the interpreter happens to iterate the set. *)
Definition _validate_command_safety (patterns : list string) (command : string)
  : option string :=
  let command_lower := lower command in
  match find (fun pattern => str_in pattern command_lower) patterns with
  | Some pattern => Some (blocked_message pattern)
  | None =>
      let first_command := first_word command_lower in
      if startswith first_command "./" || startswith first_command "/" then
        Some "Error: Absolute paths and executable files are not allowed"
      else
        let base_command := last_segment "/"%char first_command in
        if truthy base_command &&
           negb (existsb (String.eqb base_command) SAFE_COMMANDS) then
          Some ("Error: Command '" +:+ base_command +:+
                "' is not in the whitelist of safe commands")
        else None
  end.

Definition restricted_env : list (string * string) :=
  [("PATH", "/usr/bin:/bin"); ("HOME", "/tmp")].

Definition format_output (stdout stderr : string) (returncode : Z) : string :=
  let output_parts :=
    (if truthy stdout then ["STDOUT:" +:+ nl +:+ stdout] else []) ++
    (if truthy stderr then ["STDERR:" +:+ nl +:+ stderr] else []) in
  let output_parts :=
    match output_parts with [] => ["(No output)"] | _ => output_parts end in
  let output := join nl output_parts in
  if Z.eqb returncode 0 then output
  else output +:+ nl +:+ nl +:+ "Exit code: " +:+ str_int returncode.

(** The [try] block of [execute]: run the command and format the
    completed process, or report the exception. *)
Definition run_checked (command : string) (w : World) : string * World :=
  match subprocess_run ["bash"; "-c"; command] w with
  | (Completed stdout stderr returncode, w') =>
      (format_output stdout stderr returncode, w')
  | (RunRaised (TimeoutExpired _), w') =>
      ("Command timed out after 15 seconds: " +:+ command, w')
  | (RunRaised (FileNotFoundError _), w') =>
      ("Bash not found. This tool requires bash to be installed.", w')
  | (RunRaised e, w') =>
      ("Unexpected error executing command '" +:+ command +:+ "': " +:+
       str_exn e, w')
  end.

(** [SafeBashTool.execute] *)
Definition execute (patterns : list string) (input_data : BashInput) (w : World)
  : string * World :=
  let command := strip (command input_data) in
  if negb (truthy command) then ("Error: Empty command provided", w)
  else
    match _validate_command_safety patterns command with
    | Some security_error =>
        if truthy security_error then (security_error, w)
        else run_checked command w
    | None => run_checked command w
    end.

End SafeBashTool.

(** ** [tools/edit_file.py] *)

Module EditFileTool.
Import PyStr.

Record EditFileInput : Type := { path : string; old_str : string; new_str : string }.

(** The constructor [EditFileInput]: the three required string fields, then the
    [strings_must_be_different] validator. *)
Definition EditFileInput_model (kwargs : ToolInput) : exn + EditFileInput :=
  match Base.field_str "path" kwargs,
        Base.field_str "old_str" kwargs,
        Base.field_str "new_str" kwargs with
  | inr p, inr o, inr n =>
      if String.eqb o n then
        inl (ValidationError "EditFileInput"
               [("", "Value error, old_str and new_str must be different")])
      else inr {| path := p; old_str := o; new_str := n |}
  | rp, ro, rn =>
      inl (ValidationError "EditFileInput"
             (Base.field_errors rp ++ Base.field_errors ro ++ Base.field_errors rn))
  end.

(** The [return] statements of [execute], in the order of the source. *)
Inductive Return : Type :=
  | NotAFile (file_path : Pathlib.Path)
  | CannotDecode (file_path : Pathlib.Path) (e : string)
  | Edited (file_path : Pathlib.Path) (occurrence_count : nat)
  | CreatedNew (file_path : Pathlib.Path)
  | StringNotFound (old_str : string)
  | PermissionDenied (file_path : Pathlib.Path)
  | Unexpected (file_path : Pathlib.Path) (e : exn).

(** The string each [return] statement gives back. *)
Definition message (r : Return) : string :=
  match r with
  | NotAFile p => "Path exists but is not a file: " +:+ Pathlib.to_str p
  | CannotDecode p e =>
      "Cannot decode file as UTF-8: " +:+ Pathlib.to_str p +:+ " (" +:+ e +:+ ")"
  | Edited p n =>
      "Successfully edited " +:+ Pathlib.to_str p +:+ ". Replaced " +:+
      str_nat n +:+ " occurrence(s) of the specified string."
  | CreatedNew p => "Created new file: " +:+ Pathlib.to_str p
  | StringNotFound o => "String not found in file: '" +:+ o +:+ "'"
  | PermissionDenied p => "Permission denied writing to file: " +:+ Pathlib.to_str p
  | Unexpected p e =>
      "Unexpected error editing file " +:+ Pathlib.to_str p +:+ ": " +:+ str_exn e
  end.

(** The two [except] clauses around the body. *)
Definition on_exception (file_path : Pathlib.Path) (e : exn) : Return :=
  match e with
  | PermissionError _ => PermissionDenied file_path
  | _ => Unexpected file_path e
  end.

(** From [# Perform replacement] to the end of the [try] block. *)
Definition perform_replacement (file_path : Pathlib.Path) (old_str new_str : string)
    (original_content : string) (w : World) : Return * World :=
  if str_in old_str original_content then
    let occurrence_count := count original_content old_str in
    let new_content := replace original_content old_str new_str in
    match Pathlib.write_text file_path new_content (fs w) with
    | inl e => (on_exception file_path e, w)
    | inr fs' => (Edited file_path occurrence_count, set_fs w fs')
    end
  else
    if negb (Pathlib.exists_ (fs w) file_path) && negb (truthy old_str) then
      match Pathlib.write_text file_path new_str (fs w) with
      | inl e => (on_exception file_path e, w)
      | inr fs' => (CreatedNew file_path, set_fs w fs')
      end
    else (StringNotFound old_str, w).

(** [EditFileTool.execute], up to the choice of the [return] statement. *)
Definition execute_return (input_data : EditFileInput) (w : World) : Return * World :=
  let file_path := Pathlib.of_str (path input_data) in
  let old_str := old_str input_data in
  let new_str := new_str input_data in
  match Pathlib.mkdir_parents (Pathlib.parent file_path) (fs w) with
  | inl e => (on_exception file_path e, w)
  | inr fs1 =>
      let w1 := set_fs w fs1 in
      if Pathlib.exists_ fs1 file_path then
        if negb (Pathlib.is_file fs1 file_path) then (NotAFile file_path, w1)
        else
          match Pathlib.read_text fs1 file_path with
          | inl (UnicodeDecodeError e) => (CannotDecode file_path e, w1)
          | inl e => (on_exception file_path e, w1)
          | inr original_content =>
              perform_replacement file_path old_str new_str original_content w1
          end
      else perform_replacement file_path old_str new_str "" w1
  end.

(** [EditFileTool.execute] *)
Definition execute (input_data : EditFileInput) (w : World) : string * World :=
  let '(r, w') := execute_return input_data w in (message r, w').

End EditFileTool.

(** The tool instances, as subclasses of [BaseTool]. *)

Definition returning (r : string * World) : Outcome := (inr (fst r), snd r).

Definition edit_file_tool : Base.BaseTool :=
  {| Base.name := "edit_file";
     Base.description :=
       "Make edits to a text file. Replaces 'old_str' with 'new_str' in the given file. 'old_str' and 'new_str' MUST be different from each other. If the file specified with path doesn't exist, it will be created.";
     Base.Input := EditFileTool.EditFileInput;
     Base.input_model := EditFileTool.EditFileInput_model;
     Base.execute := fun i w => returning (EditFileTool.execute i w);
     Base.get_schema :=
       JObj [("properties",
              JObj [("path", JObj [("type", JStr "string")]);
                    ("old_str", JObj [("type", JStr "string")]);
                    ("new_str", JObj [("type", JStr "string")])]);
             ("required", JArr [JStr "path"; JStr "old_str"; JStr "new_str"]);
             ("type", JStr "object")] |}.

Definition bash_tool (patterns : list string) : Base.BaseTool :=
  {| Base.name := "bash";
     Base.description :=
       "Execute safe bash commands for read-only operations. Allowed commands include: ls, cat, grep, find, head, tail, wc, du, df, ps, pwd, whoami, date, echo, which, type, and basic pipes/redirections. Write operations, network commands, and system modifications are blocked.";
     Base.Input := SafeBashTool.BashInput;
     Base.input_model := SafeBashTool.BashInput_model;
     Base.execute := fun i w => returning (SafeBashTool.execute patterns i w);
     Base.get_schema :=
       JObj [("properties", JObj [("command", JObj [("type", JStr "string")])]);
             ("required", JArr [JStr "command"]);
             ("type", JStr "object")] |}.

(** ** [tools/read_file.py] *)

Module ReadFileTool.

Record ReadFileInput : Type := { path : string }.

(** The constructor [ReadFileInput]: one required string field. *)
Definition ReadFileInput_model (kwargs : ToolInput) : exn + ReadFileInput :=
  match Base.field_str "path" kwargs with
  | inr p => inr {| path := p |}
  | r => inl (ValidationError "ReadFileInput" (Base.field_errors r))
  end.

(** The [return] statements of [execute], in the order of the source. *)
Inductive Return : Type :=
  | NotFound (file_path : Pathlib.Path)
  | NotAFile (file_path : Pathlib.Path)
  | Content (content : string)
  | PermissionDenied (file_path : Pathlib.Path)
  | CannotDecode (file_path : Pathlib.Path) (e : string)
  | Unexpected (file_path : Pathlib.Path) (e : exn).

Definition message (r : Return) : string :=
  match r with
  | NotFound p => "File not found: " +:+ Pathlib.to_str p
  | NotAFile p => "Path is not a file: " +:+ Pathlib.to_str p
  | Content content => content
  | PermissionDenied p => "Permission denied reading file: " +:+ Pathlib.to_str p
  | CannotDecode p e =>
      "Cannot decode file as UTF-8: " +:+ Pathlib.to_str p +:+ " (" +:+ e +:+ ")"
  | Unexpected p e =>
      "Unexpected error reading file " +:+ Pathlib.to_str p +:+ ": " +:+ str_exn e
  end.

(** [ReadFileTool.execute], up to the choice of the [return] statement. *)
Definition execute_return (input_data : ReadFileInput) (w : World) : Return :=
  let file_path := Pathlib.of_str (path input_data) in
  if negb (Pathlib.exists_ (fs w) file_path) then NotFound file_path
  else if negb (Pathlib.is_file (fs w) file_path) then NotAFile file_path
  else
    match Pathlib.read_text (fs w) file_path with
    | inr content => Content content
    | inl (PermissionError _) => PermissionDenied file_path
    | inl (UnicodeDecodeError e) => CannotDecode file_path e
    | inl e => Unexpected file_path e
    end.

(** [ReadFileTool.execute]: nothing in it writes, so the world is handed
    back as it came. *)
Definition execute (input_data : ReadFileInput) (w : World) : string * World :=
  (message (execute_return input_data w), w).

End ReadFileTool.

Definition read_file_tool : Base.BaseTool :=
  {| Base.name := "read_file";
     Base.description :=
       "Read the contents of a given relative file path. Use this when you want to see what's inside a file. Do not use this with directory names.";
     Base.Input := ReadFileTool.ReadFileInput;
     Base.input_model := ReadFileTool.ReadFileInput_model;
     Base.execute := fun i w => returning (ReadFileTool.execute i w);
     Base.get_schema :=
       JObj [("properties", JObj [("path", JObj [("type", JStr "string")])]);
             ("required", JArr [JStr "path"]);
             ("type", JStr "object")] |}.

(** ** [tools/list_files.py] *)

Module ListFilesTool.

Record ListFilesInput : Type := { path : option string }.

(** The constructor [ListFilesInput]: [path] is optional, may be [None],
    and defaults to ["."]. *)
Definition ListFilesInput_model (kwargs : ToolInput) : exn + ListFilesInput :=
  match kwargs !! "path" with
  | None => inr {| path := Some "." |}
  | Some JNull => inr {| path := None |}
  | Some (JStr s) => inr {| path := Some s |}
  | Some _ =>
      inl (ValidationError "ListFilesInput" [("path", "Input should be a valid string")])
  end.

(** [str(n)] for a size. *)
Definition str_N (n : N) : string := NilZero.string_of_uint (N.to_uint n).

(** The nearest integer to [num / den], ties going to the even one. *)
Definition round_half_even (num den : N) : N :=
  let q := (num / den)%N in
  let r := (num mod den)%N in
  if (den <? 2 * r)%N || ((2 * r =? den)%N && N.odd q) then (q + 1)%N else q.

(** The format [.1f] applied to the quotient [num / den]: the quotient in
    tenths, rounded to the nearest with ties to even, printed with one
    decimal. In [_format_size] the divisor is a power of two, so for sizes
    below [2^53] the floating-point quotient is the exact one. *)
Definition tenths (num den : N) : N := round_half_even (10 * num) den.

Definition fmt_tenths (t : N) : string :=
  str_N (t / 10) +:+ "." +:+ str_N (t mod 10).

Definition fmt_1f (num den : N) : string := fmt_tenths (tenths num den).

Definition KB : N := 1024.
Definition MB : N := 1024 * 1024.
Definition GB : N := 1024 * 1024 * 1024.

(** [ListFilesTool._format_size] *)
Definition _format_size (size_bytes : N) : string :=
  if (size_bytes <? KB)%N then str_N size_bytes +:+ " bytes"
  else if (size_bytes <? MB)%N then fmt_1f size_bytes KB +:+ " KB"
  else if (size_bytes <? GB)%N then fmt_1f size_bytes MB +:+ " MB"
  else fmt_1f size_bytes GB +:+ " GB".

(** The number of bytes of the UTF-8 encoding of a text whose characters
    are code points below 256. *)
Fixpoint utf8_size (s : string) : N :=
  match s with
  | EmptyString => 0
  | String c s' =>
      ((if (nat_of_ascii c <? 128)%nat then 1 else 2) + utf8_size s')%N
  end.

(** [q] without the leading [p], when [p] leads [q]. *)
Fixpoint strip_prefix (p q : Pathlib.Path) : option (list string) :=
  match p, q with
  | [], _ => Some q
  | _ :: _, [] => None
  | x :: p', y :: q' => if String.eqb x y then strip_prefix p' q' else None
  end.

(** The name of [q] when [q] is an entry of the directory [p]. *)
Definition child_name (p q : Pathlib.Path) : option string :=
  match strip_prefix p q with
  | Some [x] => if Pathlib.is_root q then None else Some x
  | _ => None
  end.

(** The names of the entries of [p], in no particular order:
    [dir_path.iterdir()]. *)
Definition iterdir (fs : Pathlib.FS) (p : Pathlib.Path) : list string :=
  omap (child_name p) (map fst (map_to_list fs)).

Fixpoint insert_sorted (x : string) (l : list string) : list string :=
  match l with
  | [] => [x]
  | y :: rest => if String.leb x y then x :: l else y :: insert_sorted x rest
  end.

(** [sorted(...)] on the entries of one directory: they differ by their
    names only, which are compared as strings. *)
Definition sorted (l : list string) : list string :=
  fold_right insert_sorted [] l.

(** [item.stat().st_size]; [raw_size] gives the size of the files whose
    bytes are no text. *)
Definition st_size (raw_size : Pathlib.Path -> N) (item : Pathlib.Path)
    (text : option string) : N :=
  match text with
  | Some s => utf8_size s
  | None => raw_size item
  end.

(** One line of the listing, for the entry [item_name] of [dir_path];
    [stat] raises for an entry that is not there. *)
Definition entry (raw_size : Pathlib.Path -> N) (fs : Pathlib.FS)
    (dir_path : Pathlib.Path) (item_name : string) : exn + string :=
  let item := dir_path ++ [item_name] in
  match Pathlib.node_at fs item with
  | Some (Pathlib.Dir _) => inr (item_name +:+ "/")
  | Some (Pathlib.File _ text) =>
      inr (item_name +:+ " (" +:+ _format_size (st_size raw_size item text) +:+ ")")
  | None => inl (FileNotFoundError (Pathlib.to_str item))
  end.

(** The [for item in sorted(dir_path.iterdir())] loop: the lines so far, or
    the first exception. *)
Fixpoint collect_entries (raw_size : Pathlib.Path -> N) (fs : Pathlib.FS)
    (dir_path : Pathlib.Path) (names : list string) : exn + list string :=
  match names with
  | [] => inr []
  | item_name :: rest =>
      match entry raw_size fs dir_path item_name with
      | inl e => inl e
      | inr line =>
          match collect_entries raw_size fs dir_path rest with
          | inl e => inl e
          | inr lines => inr (line :: lines)
          end
      end
  end.

(** The [return] statements of [execute]. *)
Inductive Return : Type :=
  | NotFound (dir_path : Pathlib.Path)
  | NotADirectory (dir_path : Pathlib.Path)
  | PermissionDenied (dir_path : Pathlib.Path)
  | Empty (dir_path : Pathlib.Path)
  | Contents (dir_path : Pathlib.Path) (entries : list string)
  | Unexpected (dir_path : Pathlib.Path) (e : exn).

Definition message (r : Return) : string :=
  match r with
  | NotFound p => "Directory not found: " +:+ Pathlib.to_str p
  | NotADirectory p => "Path is not a directory: " +:+ Pathlib.to_str p
  | PermissionDenied p =>
      "Permission denied accessing directory: " +:+ Pathlib.to_str p
  | Empty p => "Directory " +:+ Pathlib.to_str p +:+ " is empty"
  | Contents p entries =>
      "Contents of " +:+ Pathlib.to_str p +:+ ":" +:+ PyStr.nl +:+
      PyStr.join PyStr.nl entries
  | Unexpected p e =>
      "Unexpected error listing directory " +:+ Pathlib.to_str p +:+ ": " +:+
      str_exn e
  end.

(** [input_data.path or "."] *)
Definition path_or_dot (input_data : ListFilesInput) : string :=
  match path input_data with
  | Some s => if PyStr.truthy s then s else "."
  | None => "."
  end.

(** [ListFilesTool.execute], up to the choice of the [return] statement. *)
Definition execute_return (raw_size : Pathlib.Path -> N)
    (input_data : ListFilesInput) (w : World) : Return :=
  let dir_path := Pathlib.of_str (path_or_dot input_data) in
  if negb (Pathlib.exists_ (fs w) dir_path) then NotFound dir_path
  else if negb (Pathlib.is_dir (fs w) dir_path) then NotADirectory dir_path
  else
    match collect_entries raw_size (fs w) dir_path
            (sorted (iterdir (fs w) dir_path)) with
    | inl (PermissionError _) => PermissionDenied dir_path
    | inl e => Unexpected dir_path e
    | inr [] => Empty dir_path
    | inr entries => Contents dir_path entries
    end.

(** [ListFilesTool.execute] *)
Definition execute (raw_size : Pathlib.Path -> N)
    (input_data : ListFilesInput) (w : World) : string * World :=
  (message (execute_return raw_size input_data w), w).

End ListFilesTool.

Definition list_files_tool (raw_size : Pathlib.Path -> N) : Base.BaseTool :=
  {| Base.name := "list_files";
     Base.description :=
       "List files and directories at a given path. If no path is provided, lists files in the current directory.";
     Base.Input := ListFilesTool.ListFilesInput;
     Base.input_model := ListFilesTool.ListFilesInput_model;
     Base.execute := fun i w => returning (ListFilesTool.execute raw_size i w);
     Base.get_schema :=
       JObj [("properties",
              JObj [("path", JObj [("default", JStr ".");
                                   ("anyOf", JArr [JObj [("type", JStr "string")];
                                                   JObj [("type", JStr "null")]])])]);
             ("type", JStr "object")] |}.

(** ** [agent.py] *)

Module Agent.

(** [class Tool(Protocol)] *)
Record Tool : Type := mkTool {
  name : string;
  description : string;
  call : ToolInput -> World -> Outcome;
  get_schema : JSON
}.

(** A [BaseTool] instance seen through the protocol. *)
Definition of_base (b : Base.BaseTool) : Tool :=
  {| name := Base.name b;
     description := Base.description b;
     call := Base.__call__ b;
     get_schema := Base.get_schema b |}.

(** Content blocks, of replies and of message parameters. The
    [tool_result] dictionary has an optional [is_error] key. *)
Inductive ContentBlock : Type :=
  | TextBlock (text : string)
  | ToolUseBlock (id name : string) (input : ToolInput)
  | ToolResultBlock (tool_use_id content : string) (is_error : option bool)
  | OtherBlock (type : string).

Inductive Role : Type := user | assistant.

Inductive Content : Type :=
  | Str (s : string)
  | Blocks (blocks : list ContentBlock).

(** [anthropic.MessageParam] *)
Record MessageParam : Type := { role : Role; content : Content }.

(** [anthropic.Message], a reply of the remote model. *)
Record Message : Type := { reply_content : list ContentBlock }.

Definition to_param (message : Message) : MessageParam :=
  {| role := assistant; content := Blocks (reply_content message) |}.

(** [anthropic.ToolParam] *)
Record ToolParam : Type :=
  { tool_name : string; tool_description : string; input_schema : JSON }.

(** The arguments of one [client.messages.create] call. *)
Record Request : Type := {
  model : string;
  max_tokens : nat;
  messages : list MessageParam;
  request_tools : option (list ToolParam)
}.

(** What the console is asked to print. *)
Inductive Printed : Type :=
  | PrintBanner
  | PrintPrompt
  | PrintClaude (text : string)
  | PrintToolCall (name : string) (input : ToolInput)
  | PrintResult (result : string)
  | PrintCallError (e : exn)
  | PrintGoodbye.

(** The ordered dictionary [self.tools]. *)
Fixpoint dict_set {V} (k : string) (v : V) (d : list (string * V))
  : list (string * V) :=
  match d with
  | [] => [(k, v)]
  | (k', v') :: rest =>
      if String.eqb k' k then (k', v) :: rest
      else (k', v') :: dict_set k v rest
  end.

Fixpoint dict_get {V} (k : string) (d : list (string * V)) : option V :=
  match d with
  | [] => None
  | (k', v') :: rest => if String.eqb k' k then Some v' else dict_get k rest
  end.

Definition dict_values {V} (d : list (string * V)) : list V := map snd d.
Definition dict_keys {V} (d : list (string * V)) : list string := map fst d.

(** The agent ([self]) together with the world its tools act on.
    [client] answers a request given the requests made before it;
    [requests] logs the calls made so far. *)
Record Agent : Type := mkAgent {
  tools : list (string * Tool);
  conversation : list MessageParam;
  console : list Printed;
  client : list Request -> Request -> exn + Message;
  requests : list Request;
  world : World
}.

Definition set_tools (self : Agent) (t : list (string * Tool)) : Agent :=
  mkAgent t (conversation self) (console self) (client self) (requests self) (world self).

Definition append_message (self : Agent) (m : MessageParam) : Agent :=
  mkAgent (tools self) (conversation self ++ [m]) (console self) (client self)
          (requests self) (world self).

Definition print (self : Agent) (p : Printed) : Agent :=
  mkAgent (tools self) (conversation self) (console self ++ [p]) (client self)
          (requests self) (world self).

Definition log_request (self : Agent) (r : Request) : Agent :=
  mkAgent (tools self) (conversation self) (console self) (client self)
          (requests self ++ [r]) (world self).

Definition set_world (self : Agent) (w : World) : Agent :=
  mkAgent (tools self) (conversation self) (console self) (client self)
          (requests self) w.

(** [Agent.__init__]: no tools, an empty conversation. *)
Definition init (client : list Request -> Request -> exn + Message) (w : World)
  : Agent :=
  mkAgent [] [] [] client [] w.

(** [Agent.add_tool] *)
Definition add_tool (self : Agent) (tool : Tool) : Agent :=
  set_tools self (dict_set (name tool) tool (tools self)).

(** [anthropic.ToolParam(name=tool.name, ...)] *)
Definition tool_param (tool : Tool) : ToolParam :=
  {| tool_name := name tool;
     tool_description := description tool;
     input_schema := get_schema tool |}.

(** The list built at the start of [_call_claude]. *)
Definition anthropic_tools (self : Agent) : list ToolParam :=
  map tool_param (dict_values (tools self)).

Definition build_request (self : Agent) : Request :=
  {| model := "claude-3-5-sonnet-20241022";
     max_tokens := 1024;
     messages := conversation self;
     request_tools := match anthropic_tools self with
                      | [] => None
                      | ts => Some ts
                      end |}.

(** [Agent._call_claude] *)
Definition _call_claude (self : Agent) : (exn + Message) * Agent :=
  let request := build_request self in
  (client self (requests self) request, log_request self request).

(** [Agent._execute_tool] *)
Definition _execute_tool (self : Agent) (tool_name : string) (tool_input : ToolInput)
  : string * Agent :=
  match dict_get tool_name (tools self) with
  | None => ("Tool '" +:+ tool_name +:+ "' not found", self)
  | Some tool =>
      match call tool tool_input (world self) with
      | (inr result, w') => (result, set_world self w')
      | (inl e, w') =>
          ("Error executing tool " +:+ tool_name +:+ ": " +:+ str_exn e,
           set_world self w')
      end
  end.

(** One iteration of [for content in message.content]. *)
Definition handle_block (acc : list ContentBlock * bool * Agent) (block : ContentBlock)
  : list ContentBlock * bool * Agent :=
  let '(tool_results, has_tool_use, self) := acc in
  match block with
  | TextBlock text => (tool_results, has_tool_use, print self (PrintClaude text))
  | ToolUseBlock id tname input =>
      let self1 := print self (PrintToolCall tname input) in
      let '(result, self2) := _execute_tool self1 tname input in
      let self3 := print self2 (PrintResult result) in
      (tool_results ++ [ToolResultBlock id result None], true, self3)
  | _ => acc
  end.

Definition scan_blocks (blocks : list ContentBlock) (self : Agent)
  : list ContentBlock * bool * Agent :=
  fold_left handle_block blocks ([], false, self).

(** The [while True] loop of [_process_conversation]; [fuel] bounds the
    number of iterations, [None] means the bound was reached. *)
Fixpoint process_loop (fuel : nat) (message : Message) (self : Agent)
  : option Agent :=
  match fuel with
  | O => None
  | S fuel' =>
      let '(tool_results, has_tool_use, self1) :=
        scan_blocks (reply_content message) self in
      if negb has_tool_use then Some self1
      else
        match tool_results with
        | [] => process_loop fuel' message self1
        | _ =>
            let tool_message := {| role := user; content := Blocks tool_results |} in
            let self2 := append_message self1 tool_message in
            match _call_claude self2 with
            | (inr message', self3) =>
                process_loop fuel' message' (append_message self3 (to_param message'))
            | (inl e, self3) => Some (print self3 (PrintCallError e))
            end
        end
  end.

(** [Agent._process_conversation] *)
Definition _process_conversation (fuel : nat) (self : Agent) : option Agent :=
  match _call_claude self with
  | (inr message, self1) =>
      process_loop fuel message (append_message self1 (to_param message))
  | (inl e, self1) => Some (print self1 (PrintCallError e))
  end.

(** What [self.get_user_input()] does when called: return a line, or
    raise [EOFError] or [KeyboardInterrupt]. *)
Inductive InputEvent : Type :=
  | Line (user_input : string)
  | EndOfInput.

(** [Agent.run] against a script of input events. When the script is
    used up the session is still waiting at its prompt. *)
Fixpoint session (fuel : nat) (inputs : list InputEvent) (self : Agent)
  : option Agent :=
  match inputs with
  | [] => Some self
  | ev :: rest =>
      let self := print self PrintPrompt in
      match ev with
      | EndOfInput => Some (print self PrintGoodbye)
      | Line user_input =>
          if negb (PyStr.truthy (PyStr.strip user_input)) then
            session fuel rest self
          else
            let user_message := {| role := user; content := Str user_input |} in
            match _process_conversation fuel (append_message self user_message) with
            | Some self' => session fuel rest self'
            | None => None
            end
      end
  end.

Definition run (fuel : nat) (inputs : list InputEvent) (self : Agent)
  : option Agent :=
  session fuel inputs (print self PrintBanner).

End Agent.

(** ** Notions used in the statements *)

Module Notions.
Import Agent.

(** The [id]s of the [tool_use] blocks of a reply, in order. *)
Definition tool_use_ids (blocks : list ContentBlock) : list string :=
  flat_map (fun b => match b with ToolUseBlock id _ _ => [id] | _ => [] end) blocks.

(** The [tool_use_id] of a [tool_result] block. *)
Definition result_id (b : ContentBlock) : option string :=
  match b with ToolResultBlock id _ _ => Some id | _ => None end.

(** The user-role message that carries tool results. *)
Definition tool_message (tool_results : list ContentBlock) : MessageParam :=
  {| role := user; content := Blocks tool_results |}.

(** The user-role message made from a line of input. *)
Definition user_message (user_input : string) : MessageParam :=
  {| role := user; content := Str user_input |}.

(** What a pass over the content blocks leaves alone. *)
Definition same_session (a b : Agent) : Prop :=
  tools b = tools a /\ conversation b = conversation a /\
  client b = client a /\ requests b = requests a.

(** Calling [add_tool] for each tool of a list, in order. *)
Definition register_all (ts : list Tool) (self : Agent) : Agent :=
  fold_left add_tool ts self.

(** The registrations still in force (those not overwritten by a later one
    of the same name), in the order in which they were made. *)
Fixpoint in_force (ts : list Tool) : list Tool :=
  match ts with
  | [] => []
  | t :: rest =>
      if existsb (fun t' => String.eqb (name t') (name t)) rest then in_force rest
      else t :: in_force rest
  end.

(** The names in the order of their first occurrence. *)
Fixpoint keep_first (names : list string) : list string :=
  match names with
  | [] => []
  | n :: rest => n :: List.filter (fun m => negb (String.eqb m n)) (keep_first rest)
  end.

(** The last registration under a name. *)
Definition last_named (n : string) (ts : list Tool) : option Tool :=
  find (fun t => String.eqb (name t) n) (rev ts).

(** The arguments of [EditFileInput] are invalid: a field is missing, or is
    not a string, or [old_str] and [new_str] are the same string. *)
Definition edit_fields : list string := ["path"; "old_str"; "new_str"].

Definition is_str (v : JSON) : bool :=
  match v with JStr _ => true | _ => false end.

Definition edit_args_invalid (kwargs : ToolInput) : Prop :=
  (exists f, In f edit_fields /\ kwargs !! f = None) \/
  (exists f v, In f edit_fields /\ kwargs !! f = Some v /\ is_str v = false) \/
  (exists s, kwargs !! "old_str" = Some (JStr s) /\ kwargs !! "new_str" = Some (JStr s)).

End Notions.

(** ** The rest of [agent.py] and the applications *)

Module Defaults.
Import Agent.

(** [Agent._default_input]: [input()] either returns a line or raises
    [EOFError] or [KeyboardInterrupt]; the method turns the exception into
    the empty string. Given what [input()] does, this is what
    [self.get_user_input()] does when it is the default. *)
Definition _default_input (ev : InputEvent) : InputEvent :=
  match ev with
  | Line user_input => Line user_input
  | EndOfInput => Line ""
  end.

End Defaults.

(** [apps/01_chat.py] to [apps/05_edit_tool.py]: the agent each [main]
    builds before calling [run]. The banners go to the standard output, not
    to the agent's console, and the [verbose] flag only switches logging on;
    both are left out. *)
Module Apps.
Import Agent.

Section WithEnvironment.
Variable client : list Request -> Request -> exn + Message.
Variable w : World.
(** The order in which the interpreter iterates the set of dangerous
    patterns, and the sizes of the files that hold no text. *)
Variable patterns : list string.
Variable raw_size : Pathlib.Path -> N.

Definition chat_agent : Agent := init client w.

Definition read_agent : Agent :=
  add_tool (init client w) (of_base read_file_tool).

Definition list_files_agent : Agent :=
  add_tool read_agent (of_base (list_files_tool raw_size)).

Definition bash_agent : Agent :=
  add_tool list_files_agent (of_base (bash_tool patterns)).

Definition edit_agent : Agent :=
  add_tool bash_agent (of_base edit_file_tool).

End WithEnvironment.

End Apps.

(** ** Further notions used in the statements *)

Module MoreNotions.
Import Agent Notions.




(** What one turn appends after the user's message, from the first reply
    on: a reply without requests ends it; a reply with requests is followed
    by one message holding a result for each request, in order and under
    its [id], and then by the rest of the turn, or by nothing when the next
    call failed. *)
Inductive exchange : list MessageParam -> Prop :=
  | exchange_final message :
      tool_use_ids (reply_content message) = [] ->
      exchange [to_param message]
  | exchange_failed message results :
      tool_use_ids (reply_content message) <> [] ->
      map result_id results = map Some (tool_use_ids (reply_content message)) ->
      exchange [to_param message; tool_message results]
  | exchange_round message results rest :
      tool_use_ids (reply_content message) <> [] ->
      map result_id results = map Some (tool_use_ids (reply_content message)) ->
      exchange rest ->
      exchange (to_param message :: tool_message results :: rest).

(** The number of messages that carry tool results. *)
Definition is_tool_message (m : MessageParam) : bool :=
  match role m, content m with
  | user, Blocks _ => true
  | _, _ => false
  end.

Definition tool_rounds (suffix : list MessageParam) : nat :=
  length (List.filter is_tool_message suffix).

(** What each request of a turn looks like: the fixed model and token
    limit, the tools of the agent, and the transcript as far as it has got,
    for a turn that starts from
    the agent [a] and appends [suffix]. *)
Definition request_of_turn (a : Agent) (suffix : list MessageParam) (r : Request) : Prop :=
  model r = "claude-3-5-sonnet-20241022" /\
  max_tokens r = 1024 /\
  request_tools r = request_tools (build_request a) /\
  exists sent, sent `prefix_of` suffix /\ messages r = conversation a ++ sent.

(** Since [a], the console was only given lines other than the farewell. *)
Definition no_goodbye_since (a a' : Agent) : Prop :=
  exists extra, console a' = console a ++ extra /\ ~ In PrintGoodbye extra.

(** A tool that hands the world back as it got it, and an agent all of
    whose tools do. *)
Definition read_only (tool : Tool) : Prop :=
  forall input w, snd (call tool input w) = w.

Definition all_read_only (self : Agent) : Prop :=
  Forall (fun kv => read_only (snd kv)) (tools self).

(** Each name is at most the next one, in the order of strings. *)
Fixpoint ascending (l : list string) : bool :=
  match l with
  | x :: ((y :: _) as rest) => String.leb x y && ascending rest
  | _ => true
  end.

(** The line that the listing of [dir_path] shows for the entry [x]. *)
Definition shown_as (raw_size : Pathlib.Path -> N) (fs : Pathlib.FS)
    (dir_path : Pathlib.Path) (x line : string) : Prop :=
  match Pathlib.node_at fs (dir_path ++ [x]) with
  | Some (Pathlib.Dir _) => line = x +:+ "/"
  | Some (Pathlib.File _ (Some text)) =>
      line = x +:+ " (" +:+
             ListFilesTool._format_size (ListFilesTool.utf8_size text) +:+ ")"
  | Some (Pathlib.File _ None) =>
      line = x +:+ " (" +:+
             ListFilesTool._format_size (raw_size (dir_path ++ [x])) +:+ ")"
  | None => False
  end.

(** Every character of the string is white space. *)
Fixpoint all_space (s : string) : bool :=
  match s with
  | EmptyString => true
  | String c s' => PyStr.isspace c && all_space s'
  end.

(** The command passes the checks of [_validate_command_safety]: no
    dangerous pattern occurs in its lower-cased text, its first word does
    not start with [./] or [/], and the part of that word after its last
    [/] is empty or on the list of safe commands. *)
Definition passes_checks (command : string) : Prop :=
  let command_lower := PyStr.lower command in
  let first_command := PyStr.first_word command_lower in
  let base_command := PyStr.last_segment "/"%char first_command in
  (forall p, In p SafeBashTool.DANGEROUS_PATTERNS -> PyStr.str_in p command_lower = false) /\
  PyStr.startswith first_command "./" = false /\
  PyStr.startswith first_command "/" = false /\
  (base_command = "" \/ In base_command SafeBashTool.SAFE_COMMANDS).

End MoreNotions.

(** ** Sample data *)

Module Sample.
Import Agent Notions.

(** An operating system on which every command prints nothing. *)
Definition quiet_os (argv : list string) (fs : Pathlib.FS)
  : CompletedProcess * Pathlib.FS :=
  (Completed "" "" 0, fs).

Definition empty_world : World := mkWorld ∅ [] quiet_os.

(** A remote model that always answers with one text block, and one that
    cannot be reached. *)
Definition client_text (text : string) : list Request -> Request -> exn + Message :=
  fun _ _ => inr {| reply_content := [TextBlock text] |}.

Definition client_down : list Request -> Request -> exn + Message :=
  fun _ _ => inl (Exception "Connection error.").

(** A remote model that asks for a tool once, then answers with text. *)
Definition client_tool_once (id tname : string) (input : ToolInput)
  : list Request -> Request -> exn + Message :=
  fun earlier _ =>
    match earlier with
    | [] => inr {| reply_content := [TextBlock "Let me check."; ToolUseBlock id tname input] |}
    | _ => inr {| reply_content := [TextBlock "Done."] |}
    end.

(** A tool that returns its name. *)
Definition named_tool (n d : string) : Tool :=
  {| name := n; description := d;
     call := fun _ w => (inr n, w);
     get_schema := JObj [] |}.

(** Sessions and replies used in the worked instances. *)


Definition hello_session : Agent :=
  append_message (init (client_text "Hello!") empty_world) (user_message "hi").

Definition two_requests : Message :=
  {| reply_content :=
       [TextBlock "Two things."; ToolUseBlock "toolu_1" "echo" ∅;
        ToolUseBlock "toolu_2" "ghost" ∅] |}.

Definition echo_session : Agent :=
  add_tool (init (client_text "Done.") empty_world) (named_tool "echo" "Echo").

Definition tool_once_session : Agent :=
  append_message
    (add_tool (init (client_tool_once "toolu_1" "echo" ∅) empty_world)
              (named_tool "echo" "Echo"))
    (user_message "hi").

Definition down_session : Agent :=
  append_message (init client_down empty_world) (user_message "hi").

Definition edit_session : Agent :=
  add_tool (init (client_text "Done.") empty_world) (of_base edit_file_tool).

Definition no_old_str : ToolInput :=
  <["path" := JStr "notes.txt"]> (<["new_str" := JStr "x"]> ∅).

(** A world with one text file in one directory, and edits. *)
Definition docs_world : World :=
  mkWorld (<[["docs"; "notes.txt"] := Pathlib.File true (Some "a-b-a-b-a")]>
             (<[["docs"] := Pathlib.Dir true]> ∅))
          [] quiet_os.

Definition edit_notes : EditFileTool.EditFileInput :=
  {| EditFileTool.path := "docs/notes.txt";
     EditFileTool.old_str := "a";
     EditFileTool.new_str := "xy" |}.

Definition edit_deep : EditFileTool.EditFileInput :=
  {| EditFileTool.path := "a/b/c.txt";
     EditFileTool.old_str := "x";
     EditFileTool.new_str := "y" |}.

Definition edit_new : EditFileTool.EditFileInput :=
  {| EditFileTool.path := "new.txt";
     EditFileTool.old_str := "";
     EditFileTool.new_str := "hello" |}.

Definition first_a : Tool := named_tool "a" "first registration".
Definition only_b : Tool := named_tool "b" "registered in between".
Definition second_a : Tool := named_tool "a" "second registration".

End Sample.

(** ** More sample data *)

Module MoreSamples.
Import Agent Notions Sample.

(** The agent of the last application in the sample world, with the
    patterns iterated in the order of the source and files without text
    counted as empty. *)
Definition workshop_agent : Agent :=
  Apps.edit_agent (client_text "Done.") docs_world
                  SafeBashTool.DANGEROUS_PATTERNS (fun _ => 0%N).

(** The agent of the third application, with a remote model that asks for
    a listing once. *)
Definition listing_agent : Agent :=
  Apps.list_files_agent
    (client_tool_once "toolu_1" "list_files" (<["path" := JStr "docs"]> ∅))
    docs_world (fun _ => 0%N).


Definition edit_missing : EditFileTool.EditFileInput :=
  {| EditFileTool.path := "docs/notes.txt";
     EditFileTool.old_str := "zzz";
     EditFileTool.new_str := "y" |}.


End MoreSamples.

(* ===================================================================== *)
(** * Part II: properties *)
(* ===================================================================== *)

(** ** Strings *)

Section StringFacts.
Import PyStr.

Lemma isspace_lower_char c : isspace (lower_char c) = isspace c.
Proof. destruct c as [[] [] [] [] [] [] [] []]; reflexivity. Qed.

Lemma lower_lstrip s : lower (lstrip s) = lstrip (lower s).
Proof.
  induction s as [|c s IH]; simpl; [reflexivity|].
  rewrite isspace_lower_char. destruct (isspace c); auto.
Qed.

Lemma lower_rstrip s : lower (rstrip s) = rstrip (lower s).
Proof.
  induction s as [|c s IH]; simpl; [reflexivity|].
  rewrite <- IH, isspace_lower_char.
  destruct (rstrip s); simpl; [destruct (isspace c)|]; reflexivity.
Qed.

Lemma lower_strip s : lower (strip s) = strip (lower s).
Proof. unfold strip. now rewrite lower_rstrip, lower_lstrip. Qed.


Lemma str_in_empty s : str_in "" s = true.
Proof. destruct s; reflexivity. Qed.

Lemma str_in_cons p c s : str_in p s = true -> str_in p (String c s) = true.
Proof. intros H. simpl. rewrite H. apply orb_true_r. Qed.

Lemma str_in_nonempty p s : str_in p s = true -> p <> "" -> s <> "".
Proof. intros H Hp ->. destruct p; [congruence|discriminate]. Qed.

Lemma solid_tail_nonempty p : solid_tail p = true -> p <> "".
Proof. destruct p; [discriminate|congruence]. Qed.

Lemma str_in_lstrip p s :
  solid_head p = true -> str_in p s = true -> str_in p (lstrip s) = true.
Proof.
  intros Hp. induction s as [|a s IH]; intros H; [exact H|].
  cbn [lstrip]. destruct (isspace a) eqn:Ha; [|exact H].
  apply IH. cbn [str_in] in H. apply orb_true_iff in H as [H|H]; [|exact H].
  destruct p as [|c p]; [discriminate|]. cbn in H, Hp.
  apply andb_true_iff in H as [Hc _]. apply Ascii.eqb_eq in Hc. subst a.
  rewrite Ha in Hp. discriminate.
Qed.

Lemma startswith_rstrip p s :
  solid_tail p = true -> startswith s p = true -> startswith (rstrip s) p = true.
Proof.
  revert s. induction p as [|c p IH]; intros s Hp H; [discriminate|].
  destruct s as [|a s]; [discriminate|].
  cbn [startswith] in H. apply andb_true_iff in H as [Hc Hs].
  destruct p as [|c' p'].
  - apply Ascii.eqb_eq in Hc. subst a. cbn in Hp. cbn [rstrip].
    destruct (rstrip s).
    + apply negb_true_iff in Hp. rewrite Hp. cbn. now rewrite Ascii.eqb_refl.
    + cbn. now rewrite Ascii.eqb_refl.
  - specialize (IH s Hp Hs). cbn [rstrip].
    destruct (rstrip s) as [|b r]; [discriminate|].
    cbn [startswith] in IH |- *. now rewrite Hc, IH.
Qed.

Lemma str_in_rstrip p s :
  solid_tail p = true -> str_in p s = true -> str_in p (rstrip s) = true.
Proof.
  intros Hp. induction s as [|a s IH]; intros H;
    [now destruct p|].
  cbn [str_in] in H. apply orb_true_iff in H as [H|H].
  - apply (startswith_rstrip _ _ Hp) in H.
    destruct (rstrip (String a s)); cbn [str_in]; now rewrite H.
  - specialize (IH H). cbn [rstrip].
    pose proof (str_in_nonempty _ _ IH (solid_tail_nonempty _ Hp)) as Hne.
    destruct (rstrip s) as [|b r]; [congruence|].
    now apply str_in_cons.
Qed.

Lemma str_in_strip p s :
  solid_head p = true -> solid_tail p = true ->
  str_in p s = true -> str_in p (strip s) = true.
Proof. intros. unfold strip. now apply str_in_rstrip, str_in_lstrip. Qed.

Lemma truthy_false_iff s : truthy s = false <-> s = "".
Proof.
  unfold truthy. rewrite negb_false_iff. apply String.eqb_eq.
Qed.

Lemma truthy_true_iff s : truthy s = true <-> s <> "".
Proof.
  unfold truthy. rewrite negb_true_iff. apply String.eqb_neq.
Qed.

End StringFacts.

(** ** The shell tool: the deny-list is checked before anything is run *)

Section BashSafety.
Import PyStr SafeBashTool.

Lemma dangerous_patterns_solid :
  forallb (fun p => solid_head p && solid_tail p) DANGEROUS_PATTERNS = true.
Proof. vm_compute. reflexivity. Qed.

Lemma dangerous_pattern_solid p :
  In p DANGEROUS_PATTERNS -> solid_head p = true /\ solid_tail p = true.
Proof.
  intros Hin. pose proof dangerous_patterns_solid as H.
  rewrite forallb_forall in H. apply andb_true_iff. now apply H.
Qed.

Lemma blocked_message_truthy p : truthy (blocked_message p) = true.
Proof. reflexivity. Qed.

(** The [for pattern in self.DANGEROUS_PATTERNS] loop returns at the
    first pattern, in iteration order, that occurs in the command. *)
Lemma validate_blocks patterns command p :
  In p patterns -> str_in p (lower command) = true ->
  exists p', In p' patterns /\ str_in p' (lower command) = true /\
             _validate_command_safety patterns command = Some (blocked_message p').
Proof.
  intros Hin Hp. unfold _validate_command_safety.
  destruct (find (fun pattern => str_in pattern (lower command)) patterns)
    as [p'|] eqn:Hfind.
  - apply find_some in Hfind as [Hin' Hp']. now exists p'.
  - apply (find_none _ _ Hfind) in Hin. cbv beta in Hin. congruence.
Qed.

(** C6. Whatever the order in which the set of dangerous patterns is
    iterated, a command whose lower-cased text contains one of them makes
    [SafeBashTool.execute] return the "dangerous pattern" error for some
    pattern of the deny-list, and leaves the world as it was: nothing is
    added to the log of spawned processes, so the check comes strictly
    before [subprocess.run]. *)
Theorem bash_denylist_blocks_before_spawn patterns input_data w p :
  Permutation DANGEROUS_PATTERNS patterns ->
  In p DANGEROUS_PATTERNS ->
  str_in p (lower (command input_data)) = true ->
  exists p',
    In p' DANGEROUS_PATTERNS /\
    execute patterns input_data w = (blocked_message p', w) /\
    spawned (snd (execute patterns input_data w)) = spawned w.
Proof.
  intros Hperm Hin Hp.
  destruct (dangerous_pattern_solid p Hin) as [Hh Ht].
  assert (Hs : str_in p (lower (strip (command input_data))) = true).
  { rewrite lower_strip. now apply str_in_strip. }
  destruct (validate_blocks patterns (strip (command input_data)) p)
    as (p' & Hin' & _ & Hv); [eapply Permutation_in; eauto | exact Hs |].
  assert (Hne : truthy (strip (command input_data)) = true).
  { apply truthy_true_iff. intros E. rewrite E in Hs.
    destruct p; discriminate. }
  assert (E : execute patterns input_data w = (blocked_message p', w)).
  { unfold execute. rewrite Hne. cbn [negb]. rewrite Hv.
    now rewrite blocked_message_truthy. }
  exists p'. split; [|split].
  - eapply Permutation_in; [symmetry; exact Hperm | exact Hin'].
  - exact E.
  - now rewrite E.
Qed.

End BashSafety.

(** ** [str.replace] and [str.count] replace and count every occurrence *)

Section ReplaceFacts.
Import PyStr.



Lemma length_append (a b : string) :
  String.length (a +:+ b) = String.length a + String.length b.
Proof.
  induction a as [|x a IH]; [reflexivity|].
  change (S (String.length (a +:+ b)) = S (String.length a + String.length b)).
  now f_equal.
Qed.



















End ReplaceFacts.

(** ** The file system: [mkdir(parents=True, exist_ok=True)] *)

Section PathlibFacts.
Import Pathlib.

Lemma node_at_None_not_root fs p : node_at fs p = None -> is_root p = false.
Proof. unfold node_at. destruct (is_root p); [discriminate|reflexivity]. Qed.

Lemma node_at_insert_eq fs p n :
  is_root p = false -> node_at (<[p := n]> fs) p = Some n.
Proof. intros H. unfold node_at. rewrite H. apply lookup_insert_eq. Qed.

Lemma node_at_insert_ne (fs : FS) p q n :
  p <> q -> node_at (<[p := n]> fs) q = node_at fs q.
Proof.
  intros H. unfold node_at. destruct (is_root q); [reflexivity|].
  now apply lookup_insert_ne.
Qed.

Lemma node_at_lookup (fs' fs : FS) q :
  fs' !! q = fs !! q -> node_at fs' q = node_at fs q.
Proof. intros H. unfold node_at. now rewrite H. Qed.

Lemma is_dir_node fs p : is_dir fs p = true -> exists w, node_at fs p = Some (Dir w).
Proof.
  unfold is_dir. destruct (node_at fs p) as [[w|w t]|]; try discriminate.
  intros _. now exists w.
Qed.

(** Existing directories are passed over. *)
Lemma mkdir_go_existing target todo fs : forall xs above,
  (forall m, m <> [] -> m `prefix_of` xs -> is_dir fs (above ++ m) = true) ->
  mkdir_go target above (xs ++ todo) fs = mkdir_go target (above ++ xs) todo fs.
Proof.
  induction xs as [|x xs IH]; intros above H.
  - now rewrite app_nil_r.
  - cbn [app mkdir_go].
    destruct (is_dir_node fs (above ++ [x])) as [w Hw].
    { apply H; [discriminate|]. now exists xs. }
    rewrite Hw, IH.
    + now rewrite <- app_assoc.
    + intros m Hm [k ->]. rewrite <- app_assoc. apply H; [discriminate|].
      now exists k.
Qed.

(** Missing directories are created, one inside the other, and nothing
    else changes. *)
Lemma mkdir_go_fresh target : forall todo above fs,
  node_at fs above = Some (Dir true) ->
  all_missing fs above todo ->
  exists fs1,
    mkdir_go target above todo fs = inr fs1 /\
    (forall m, m <> [] -> m `prefix_of` todo ->
               node_at fs1 (above ++ m) = Some (Dir true)) /\
    (forall q, (forall m, m <> [] -> m `prefix_of` todo -> q <> above ++ m) ->
               fs1 !! q = fs !! q).
Proof.
  induction todo as [|x todo IH]; intros above fs Habove Hmiss.
  - exists fs. split; [reflexivity|]. split; [|reflexivity].
    intros m Hm [k Hk]. symmetry in Hk. apply app_eq_nil in Hk as [-> _].
    congruence.
  - set (q := above ++ [x]).
    assert (Hq : node_at fs q = None).
    { apply Hmiss; [discriminate|]. now exists todo. }
    pose proof (node_at_None_not_root _ _ Hq) as Hroot.
    destruct (IH q (<[q := Dir true]> fs)) as (fs1 & Hgo & Hdirs & Hsame).
    { now apply node_at_insert_eq. }
    { intros m Hm [k ->]. rewrite node_at_insert_ne.
      - unfold q. rewrite <- app_assoc. apply Hmiss; [discriminate|]. now exists k.
      - intros E. apply (f_equal (@length string)) in E.
        rewrite length_app in E. destruct m; [congruence|cbn in E; lia]. }
    exists fs1. split; [|split].
    + cbn [mkdir_go]. fold q. now rewrite Hq, Habove.
    + intros m Hm [k Hk]. destruct m as [|y m]; [congruence|].
      injection Hk as <- ->.
      destruct m as [|z m].
      * change (above ++ [x]) with q.
        rewrite (node_at_lookup fs1 (<[q := Dir true]> fs) q).
        -- now apply node_at_insert_eq.
        -- apply Hsame. intros m Hm' _ E.
           apply (f_equal (@length string)) in E. rewrite length_app in E.
           destruct m; [congruence|cbn in E; lia].
      * replace (above ++ x :: z :: m) with (q ++ z :: m)
          by (unfold q; now rewrite <- app_assoc).
        apply Hdirs; [discriminate|]. now exists k.
    + intros q0 Hq0. rewrite Hsame.
      * apply lookup_insert_ne. intros E. apply (Hq0 [x]); [discriminate| |now symmetry].
        now exists todo.
      * intros m Hm [k ->] E. apply (Hq0 (x :: m)); [discriminate| |].
        -- now exists k.
        -- rewrite E. unfold q. now rewrite <- app_assoc.
Qed.

(** [mkdir_parents] on [base ++ missing], where [base] exists, may be
    written to, and nothing exists yet along [missing]. *)
Lemma mkdir_parents_spec target fs base missing :
  dirs_exist fs base ->
  node_at fs base = Some (Dir true) ->
  all_missing fs base missing ->
  exists fs1,
    mkdir_go target [] (base ++ missing) fs = inr fs1 /\
    node_at fs1 (base ++ missing) = Some (Dir true) /\
    (forall m, m <> [] -> m `prefix_of` missing ->
               node_at fs1 (base ++ m) = Some (Dir true)) /\
    (forall q, (forall m, m <> [] -> m `prefix_of` missing -> q <> base ++ m) ->
               fs1 !! q = fs !! q).
Proof.
  intros Hbase Hw Hmiss.
  destruct (mkdir_go_fresh target missing base fs Hw Hmiss)
    as (fs1 & Hgo & Hdirs & Hsame).
  exists fs1. split; [|split; [|split]]; try assumption.
  - rewrite mkdir_go_existing; [exact Hgo|exact Hbase].
  - destruct missing as [|x missing].
    + rewrite app_nil_r. rewrite (node_at_lookup fs1 fs); [exact Hw|].
      apply Hsame. intros m Hm [k Hk]. symmetry in Hk.
      apply app_eq_nil in Hk as [-> _]. congruence.
    + apply Hdirs; [discriminate|]. exists []. now rewrite app_nil_r.
Qed.

(** With every directory in place, [mkdir_parents] changes nothing. *)
Lemma mkdir_parents_existing fs p :
  dirs_exist fs p -> mkdir_parents p fs = inr fs.
Proof.
  intros H. unfold mkdir_parents.
  rewrite <- (app_nil_r p) at 2. now rewrite mkdir_go_existing.
Qed.

(** A path that is not a root is its parent followed by its last part. *)
Lemma parent_length p :
  is_root p = false -> length p = S (length (parent p)).
Proof.
  intros H. unfold parent. rewrite H.
  destruct p as [|x p] using rev_ind; [discriminate|].
  rewrite removelast_last, length_app. cbn. lia.
Qed.

End PathlibFacts.

(** ** The edit tool *)

Section EditFileFacts.
Import PyStr Pathlib EditFileTool.

Lemma on_exception_not_created file_path e p : on_exception file_path e <> CreatedNew p.
Proof. destruct e; discriminate. Qed.

(** The guard of the file-creation branch is false whenever it is
    evaluated: an empty [old_str] occurs in every content. *)
Lemma creation_guard_false fs file_path old_str original_content :
  str_in old_str original_content = false ->
  negb (exists_ fs file_path) && negb (truthy old_str) = false.
Proof.
  intros H. destruct (truthy old_str) eqn:E; [apply andb_false_r|].
  apply truthy_false_iff in E. subst. now rewrite str_in_empty in H.
Qed.

Lemma perform_replacement_not_created file_path old_str new_str content w p :
  fst (perform_replacement file_path old_str new_str content w) <> CreatedNew p.
Proof.
  unfold perform_replacement.
  destruct (str_in old_str content) eqn:Hin.
  - destruct (write_text _ _ _); cbn; [apply on_exception_not_created|discriminate].
  - rewrite (creation_guard_false _ _ _ _ Hin). discriminate.
Qed.

Lemma str_in_empty_content old_str : old_str <> "" -> str_in old_str "" = false.
Proof. destruct old_str; [congruence|reflexivity]. Qed.

(** The path of a missing file below [base ++ missing]: the directories
    are made, the file is still missing, and the replacement step runs on
    the empty content. *)
Lemma execute_on_missing_file input_data w base missing :
  let file_path := of_str (path input_data) in
  parent file_path = base ++ missing ->
  dirs_exist (fs w) base ->
  node_at (fs w) base = Some (Dir true) ->
  all_missing (fs w) base missing ->
  node_at (fs w) file_path = None ->
  exists fs1,
    mkdir_parents (parent file_path) (fs w) = inr fs1 /\
    node_at fs1 (parent file_path) = Some (Dir true) /\
    node_at fs1 file_path = None /\
    (forall m, m <> [] -> m `prefix_of` missing ->
               node_at fs1 (base ++ m) = Some (Dir true)) /\
    execute_return input_data w =
      perform_replacement file_path (old_str input_data) (new_str input_data) ""
                          (set_fs w fs1).
Proof.
  intros file_path Hparent Hbase Hw Hmiss Hfile.
  destruct (mkdir_parents_spec (parent file_path) (fs w) base missing Hbase Hw Hmiss)
    as (fs1 & Hgo & Hpar & Hdirs & Hsame).
  assert (Hmk : mkdir_parents (parent file_path) (fs w) = inr fs1).
  { unfold mkdir_parents. rewrite Hparent at 2. exact Hgo. }
  assert (Hfile1 : node_at fs1 file_path = None).
  { rewrite (node_at_lookup fs1 (fs w)); [exact Hfile|].
    apply Hsame. intros m Hm [k Hk] E.
    pose proof (parent_length _ (node_at_None_not_root _ _ Hfile)) as Hlen.
    rewrite Hparent, Hk, E, !length_app in Hlen. lia. }
  exists fs1. split; [exact Hmk|]. split; [now rewrite Hparent|].
  split; [exact Hfile1|]. split; [exact Hdirs|].
  unfold execute_return. fold file_path. rewrite Hmk.
  unfold exists_. now rewrite Hfile1.
Qed.


(** C9. When the parent directories of the target do not exist (below an
    existing, writable directory [base], nothing exists along the non-empty
    [missing], nor does the target), [execute] first creates every one of
    them and only then looks at the content. With a non-empty [old_str] the
    call then returns the "String not found in file" error: the file is
    still not there, but the directories created for it are. *)
Theorem edit_file_creates_parents_before_failing input_data w base missing :
  let file_path := of_str (path input_data) in
  let old := old_str input_data in
  let new := new_str input_data in
  parent file_path = base ++ missing ->
  missing <> [] ->
  dirs_exist (fs w) base ->
  node_at (fs w) base = Some (Dir true) ->
  all_missing (fs w) base missing ->
  node_at (fs w) file_path = None ->
  exists fs1,
    mkdir_parents (parent file_path) (fs w) = inr fs1 /\
    (forall m, m <> [] -> m `prefix_of` missing ->
               node_at (fs w) (base ++ m) = None /\
               node_at fs1 (base ++ m) = Some (Dir true)) /\
    execute_return input_data w =
      perform_replacement file_path old new "" (set_fs w fs1) /\
    (old <> "" ->
     execute input_data w =
       ("String not found in file: '" +:+ old +:+ "'", set_fs w fs1) /\
     node_at (fs (snd (execute input_data w))) file_path = None /\
     is_dir (fs (snd (execute input_data w))) (parent file_path) = true /\
     is_dir (fs w) (parent file_path) = false).
Proof.
  intros file_path old new Hparent Hne Hbase Hw Hmiss Hfile.
  destruct (execute_on_missing_file input_data w base missing
              Hparent Hbase Hw Hmiss Hfile)
    as (fs1 & Hmk & Hpar & Hfile1 & Hdirs & Hexec).
  fold file_path in Hmk, Hpar, Hfile1, Hexec.
  exists fs1. split; [exact Hmk|]. split; [|split; [exact Hexec|]].
  - intros m Hm Hpre. split; [now apply Hmiss | now apply Hdirs].
  - intros Hold.
    assert (E : execute input_data w =
                ("String not found in file: '" +:+ old +:+ "'", set_fs w fs1)).
    { unfold execute. rewrite Hexec. unfold perform_replacement.
      fold old. rewrite (str_in_empty_content _ Hold).
      rewrite (creation_guard_false _ _ _ "" (str_in_empty_content _ Hold)).
      reflexivity. }
    split; [exact E|]. rewrite E. cbn [snd fs set_fs].
    split; [exact Hfile1|]. split.
    + unfold is_dir. now rewrite Hpar.
    + unfold is_dir. rewrite Hparent, Hmiss; [reflexivity|exact Hne|].
      exists []. now rewrite app_nil_r.
Qed.

(** C10. With an empty [old_str] and a target that does not exist (its
    directory [base ++ missing] exists or can be made), [execute] succeeds
    through the replacement branch: it reports one replaced occurrence and
    leaves a file whose content is exactly [new_str]. And on no input at
    all does [execute] return through the file-creation branch, whose guard
    is false whenever it is evaluated. *)
Theorem edit_file_empty_old_str_creates_by_replacement :
  (forall input_data w base missing,
      let file_path := of_str (path input_data) in
      old_str input_data = "" ->
      parent file_path = base ++ missing ->
      dirs_exist (fs w) base ->
      node_at (fs w) base = Some (Dir true) ->
      all_missing (fs w) base missing ->
      node_at (fs w) file_path = None ->
      exists fs1,
        mkdir_parents (parent file_path) (fs w) = inr fs1 /\
        execute_return input_data w =
          (Edited file_path 1,
           set_fs w (<[file_path := File true (Some (new_str input_data))]> fs1)) /\
        read_text (fs (snd (execute input_data w))) file_path =
          inr (new_str input_data)) /\
  (forall input_data w p, fst (execute_return input_data w) <> CreatedNew p) /\
  (forall fs file_path old original_content,
      str_in old original_content = false ->
      negb (exists_ fs file_path) && negb (truthy old) = false).
Proof.
  split; [|split].
  - intros input_data w base missing file_path Hold Hparent Hbase Hw Hmiss Hfile.
    destruct (execute_on_missing_file input_data w base missing
                Hparent Hbase Hw Hmiss Hfile)
      as (fs1 & Hmk & Hpar & Hfile1 & Hdirs & Hexec).
    fold file_path in Hmk, Hpar, Hfile1, Hexec.
    assert (E : execute_return input_data w =
      (Edited file_path 1,
       set_fs w (<[file_path := File true (Some (new_str input_data))]> fs1))).
    { rewrite Hexec, Hold. unfold perform_replacement. cbn [str_in startswith orb].
      unfold write_text. cbn [fs set_fs]. rewrite Hfile1, Hpar. reflexivity. }
    exists fs1. split; [exact Hmk|]. split; [exact E|].
    unfold execute. rewrite E. cbn [snd fs set_fs]. unfold read_text.
    rewrite node_at_insert_eq; [reflexivity|].
    now apply (node_at_None_not_root (fs w)).
  - intros input_data w p. unfold execute_return.
    destruct (mkdir_parents _ _) as [e|fs1]; cbn [fst];
      [apply on_exception_not_created|].
    destruct (exists_ fs1 _); [|apply perform_replacement_not_created].
    destruct (negb (is_file fs1 _)); [discriminate|].
    destruct (read_text fs1 _) as [e|content];
      [|apply perform_replacement_not_created].
    destruct e; cbn; discriminate.
  - intros. eapply creation_guard_false; eauto.
Qed.

End EditFileFacts.

(** ** The turn loop *)

Section TurnFacts.
Import Agent Notions.

Lemma same_session_refl a : same_session a a.
Proof. now repeat split. Qed.

Lemma same_session_trans a b c :
  same_session a b -> same_session b c -> same_session a c.
Proof.
  intros (H1 & H2 & H3 & H4) (G1 & G2 & G3 & G4).
  repeat split; congruence.
Qed.

Lemma execute_tool_same_session self tname input :
  same_session self (snd (_execute_tool self tname input)).
Proof.
  unfold _execute_tool. destruct (dict_get tname (tools self)) as [tool|];
    [|apply same_session_refl].
  destruct (call tool input (world self)) as [[e|r] w']; now repeat split.
Qed.

(** The invariant of the [for] loop: one result per [tool_use] block met
    so far, in order and with its [id]; the flag is set once one is met;
    neither the transcript nor the log of remote calls moves. *)
Lemma scan_invariant : forall blocks tool_results has_tool_use self,
  exists results' self',
    fold_left handle_block blocks (tool_results, has_tool_use, self) =
      (results',
       has_tool_use || negb (Nat.eqb (length (tool_use_ids blocks)) 0),
       self') /\
    map result_id results' =
      map result_id tool_results ++ map Some (tool_use_ids blocks) /\
    same_session self self' /\
    (tool_use_ids blocks = [] -> results' = tool_results /\ world self' = world self).
Proof.
  induction blocks as [|b blocks IH]; intros tool_results has_tool_use self.
  - exists tool_results, self. cbn. rewrite orb_false_r, app_nil_r.
    repeat split; reflexivity.
  - cbn [fold_left]. destruct b as [text|id tname input|rid rc re|ty].
    + destruct (IH tool_results has_tool_use (print self (PrintClaude text)))
        as (r' & s' & Hf & Hids & Hsame & Hnone).
      exists r', s'. cbn [handle_block tool_use_ids flat_map app].
      split; [exact Hf|]. split; [exact Hids|]. split.
      * eapply same_session_trans; [|exact Hsame]. now repeat split.
      * exact Hnone.
    + cbn [handle_block].
      pose proof (execute_tool_same_session
                    (print self (PrintToolCall tname input)) tname input) as Hex.
      destruct (_execute_tool (print self (PrintToolCall tname input)) tname input)
        as [result self2]. cbn [snd] in Hex.
      destruct (IH (tool_results ++ [ToolResultBlock id result None]) true
                   (print self2 (PrintResult result)))
        as (r' & s' & Hf & Hids & Hsame & _).
      exists r', s'. cbn [tool_use_ids flat_map app length Nat.eqb negb].
      rewrite orb_true_r. split; [exact Hf|]. split; [|split].
      * rewrite Hids, map_app, <- app_assoc. reflexivity.
      * eapply same_session_trans; [|exact Hsame].
        eapply same_session_trans; [|eapply same_session_trans; [exact Hex|]];
          now repeat split.
      * discriminate.
    + destruct (IH tool_results has_tool_use self) as (r' & s' & Hf & Hids & Hsame & Hnone).
      exists r', s'. now cbn [handle_block tool_use_ids flat_map app].
    + destruct (IH tool_results has_tool_use self) as (r' & s' & Hf & Hids & Hsame & Hnone).
      exists r', s'. now cbn [handle_block tool_use_ids flat_map app].
Qed.

Lemma call_claude_fst self :
  fst (_call_claude self) = client self (requests self) (build_request self).
Proof. reflexivity. Qed.

Lemma call_claude_snd self :
  snd (_call_claude self) = log_request self (build_request self).
Proof. reflexivity. Qed.

(** C1. A reply without [tool_use] blocks ends the turn. Inside the loop,
    such a reply makes the loop return at once, with no further remote
    call, nothing appended to the transcript and the world untouched. For
    the turn as a whole: when the first reply has no [tool_use] block,
    [_process_conversation] returns (one round of fuel is enough), having
    made exactly one remote call and appended only the assistant message:
    no tool-result message. *)
Theorem reply_without_tool_use_ends_turn self message fuel :
  tool_use_ids (reply_content message) = [] ->
  (exists self',
      process_loop (S fuel) message self = Some self' /\
      requests self' = requests self /\
      conversation self' = conversation self /\
      world self' = world self) /\
  (client self (requests self) (build_request self) = inr message ->
   exists self',
      _process_conversation (S fuel) self = Some self' /\
      requests self' = requests self ++ [build_request self] /\
      conversation self' = conversation self ++ [to_param message] /\
      world self' = world self).
Proof.
  intros Hnone.
  assert (Hloop : forall a, exists a',
             process_loop (S fuel) message a = Some a' /\
             requests a' = requests a /\ conversation a' = conversation a /\
             world a' = world a).
  { intros a. cbn [process_loop]. unfold scan_blocks.
    destruct (scan_invariant (reply_content message) [] false a)
      as (r' & a' & Hf & _ & (_ & Hc & _ & Hr) & Hw).
    rewrite Hf, Hnone. cbn. exists a'.
    destruct (Hw Hnone) as [_ Hw']. now repeat split. }
  split; [apply Hloop|].
  intros Hreply. unfold _process_conversation.
  destruct (_call_claude self) as [r self1] eqn:E.
  pose proof (call_claude_fst self) as H1. pose proof (call_claude_snd self) as H2.
  rewrite E in H1, H2. cbn [fst snd] in H1, H2. rewrite Hreply in H1. subst r self1.
  destruct (Hloop (append_message (log_request self (build_request self))
                                  (to_param message)))
    as (a' & Hp & Hr & Hc & Hw).
  exists a'. split; [exact Hp|]. now rewrite Hr, Hc, Hw.
Qed.


(** C3. A remote call that raises leaves the transcript as it was just
    before the call, at both call sites, and the session goes on. At the
    start of a turn, [_process_conversation] returns with the transcript
    unchanged and the call logged. After a round of tools, the loop returns
    with the transcript it had before the failed call: the results message
    is its last entry, no assistant message follows. In the session loop,
    a line whose turn fails this way adds only the user message, and the
    loop goes on with the rest of the input. *)
Theorem transport_failure_keeps_transcript :
  (forall self fuel e,
      client self (requests self) (build_request self) = inl e ->
      exists self',
        _process_conversation fuel self = Some self' /\
        conversation self' = conversation self /\
        requests self' = requests self ++ [build_request self]) /\
  (forall self message fuel results self1 e,
      scan_blocks (reply_content message) self = (results, true, self1) ->
      results <> [] ->
      let self2 := append_message self1 (tool_message results) in
      client self2 (requests self2) (build_request self2) = inl e ->
      exists self',
        process_loop (S fuel) message self = Some self' /\
        conversation self' = conversation self2 /\
        requests self' = requests self2 ++ [build_request self2]) /\
  (forall self fuel user_input rest e,
      PyStr.truthy (PyStr.strip user_input) = true ->
      let self1 := append_message (print self PrintPrompt) (user_message user_input) in
      client self1 (requests self1) (build_request self1) = inl e ->
      exists self',
        session fuel (Line user_input :: rest) self = session fuel rest self' /\
        conversation self' = conversation self ++ [user_message user_input]).
Proof.
  assert (Hfirst : forall self fuel e,
      client self (requests self) (build_request self) = inl e ->
      _process_conversation fuel self =
        Some (print (log_request self (build_request self)) (PrintCallError e))).
  { intros self fuel e He. unfold _process_conversation, _call_claude. now rewrite He. }
  split; [|split].
  - intros self fuel e He. eexists. split; [exact (Hfirst self fuel e He)|].
    now split.
  - intros self message fuel results self1 e Hscan Hne self2 He.
    eexists. split.
    + cbn [process_loop]. rewrite Hscan. cbn [negb].
      destruct results as [|r results]; [congruence|].
      fold (tool_message (r :: results)). fold self2.
      unfold _call_claude. rewrite He. reflexivity.
    + now split.
  - intros self fuel user_input rest e Hline self1 He.
    eexists. split.
    + cbn [session]. rewrite Hline. cbn [negb].
      fold (user_message user_input). fold self1.
      rewrite (Hfirst self1 fuel e He). reflexivity.
    + reflexivity.
Qed.

End TurnFacts.

(** ** The executor: unknown tools and invalid arguments *)

Section ExecutorFacts.
Import Agent Notions.

Lemma set_world_same self : set_world self (world self) = self.
Proof. now destruct self. Qed.

(** C4 (as the code has it). For a name that is not registered,
    [_execute_tool] returns the text [Tool '<name>' not found] and leaves
    the agent and the world as they are: nothing is raised. In the loop the
    text becomes the content of a [tool_result] block with the request's
    [id] and no [is_error] key, and the flag that sends the results back to
    the remote model is set. *)
Theorem unknown_tool_reported_as_text self tool_name tool_input :
  dict_get tool_name (tools self) = None ->
  _execute_tool self tool_name tool_input =
    ("Tool '" +:+ tool_name +:+ "' not found", self) /\
  (forall tool_results has_tool_use id,
      handle_block (tool_results, has_tool_use, self)
                   (ToolUseBlock id tool_name tool_input) =
      (tool_results ++
         [ToolResultBlock id ("Tool '" +:+ tool_name +:+ "' not found") None],
       true,
       print (print self (PrintToolCall tool_name tool_input))
             (PrintResult ("Tool '" +:+ tool_name +:+ "' not found")))).
Proof.
  intros Hnone. split.
  - unfold _execute_tool. now rewrite Hnone.
  - intros tool_results has_tool_use id. cbn [handle_block].
    unfold _execute_tool. cbn [tools print]. now rewrite Hnone.
Qed.

Lemma field_str_missing f kwargs :
  kwargs !! f = None -> Base.field_str f kwargs = inl (f, "Field required").
Proof. intros H. unfold Base.field_str. now rewrite H. Qed.

Lemma field_str_not_str f kwargs v :
  kwargs !! f = Some v -> is_str v = false ->
  Base.field_str f kwargs = inl (f, "Input should be a valid string").
Proof. intros H Hv. unfold Base.field_str. rewrite H. now destruct v. Qed.

Lemma field_str_bad f kwargs :
  kwargs !! f = None \/ (exists v, kwargs !! f = Some v /\ is_str v = false) ->
  exists err, Base.field_str f kwargs = inl err.
Proof.
  intros [H|(v & H & Hv)]; eexists.
  - exact (field_str_missing f kwargs H).
  - exact (field_str_not_str f kwargs v H Hv).
Qed.

(** A bad field makes the constructor of [EditFileInput] raise. *)
Lemma edit_model_bad_field f kwargs :
  In f edit_fields ->
  kwargs !! f = None \/ (exists v, kwargs !! f = Some v /\ is_str v = false) ->
  exists errs,
    EditFileTool.EditFileInput_model kwargs = inl (ValidationError "EditFileInput" errs) /\
    errs <> [].
Proof.
  intros Hf Hbad. destruct (field_str_bad f kwargs Hbad) as [err Herr].
  unfold EditFileTool.EditFileInput_model.
  cbn in Hf. destruct Hf as [<-|[<-|[<-|[]]]]; rewrite Herr;
    repeat match goal with
           | |- context [match Base.field_str ?g kwargs with _ => _ end] =>
               destruct (Base.field_str g kwargs)
           end;
    eexists; (split; [reflexivity|]); cbn; try discriminate;
    intros E; apply app_eq_nil in E as [E1 E2]; try discriminate;
    try (apply app_eq_nil in E2 as [? ?]; discriminate).
Qed.

Lemma edit_model_same_strings kwargs s :
  kwargs !! "old_str" = Some (JStr s) -> kwargs !! "new_str" = Some (JStr s) ->
  exists errs,
    EditFileTool.EditFileInput_model kwargs = inl (ValidationError "EditFileInput" errs) /\
    errs <> [].
Proof.
  intros Ho Hn. unfold EditFileTool.EditFileInput_model.
  assert (Eo : Base.field_str "old_str" kwargs = inr s)
    by (unfold Base.field_str; now rewrite Ho).
  assert (En : Base.field_str "new_str" kwargs = inr s)
    by (unfold Base.field_str; now rewrite Hn).
  rewrite Eo, En. destruct (Base.field_str "path" kwargs) as [err|p].
  - eexists. split; [reflexivity|discriminate].
  - rewrite String.eqb_refl. eexists. split; [reflexivity|discriminate].
Qed.

(** C5. When the arguments of a registered [BaseTool] fail validation
    (its input model raises [e]), [_execute_tool] returns the error text
    built from [e] and gives the agent and the world back unchanged,
    whatever the tool's [execute] is: [execute] is not run. For
    [edit_file], arguments with a missing field, a field that is not a
    string, or equal [old_str] and [new_str] do fail validation, with at
    least one reported error. *)
Theorem invalid_arguments_never_reach_execute :
  (forall self (b : Base.BaseTool) tool_name kwargs e,
      dict_get tool_name (tools self) = Some (of_base b) ->
      Base.input_model b kwargs = inl e ->
      _execute_tool self tool_name kwargs =
        ("Error executing tool " +:+ tool_name +:+ ": " +:+ str_exn e, self)) /\
  (forall kwargs,
      edit_args_invalid kwargs ->
      exists errs,
        Base.input_model edit_file_tool kwargs =
          inl (ValidationError "EditFileInput" errs) /\
        errs <> []).
Proof.
  split.
  - intros self b tool_name kwargs e Hreg Hbad.
    unfold _execute_tool. rewrite Hreg. cbn [of_base call].
    unfold Base.__call__. rewrite Hbad. now rewrite set_world_same.
  - intros kwargs [(f & Hf & Hnone)|[(f & v & Hf & Hv & Hns)|(s & Ho & Hn)]].
    + apply (edit_model_bad_field f); [exact Hf|now left].
    + apply (edit_model_bad_field f); [exact Hf|right; now exists v].
    + now apply (edit_model_same_strings kwargs s).
Qed.

End ExecutorFacts.

(** ** The registry: an ordered dictionary *)

Section RegistryFacts.
Import Agent Notions.

Lemma dict_get_set_eq {V} k (v : V) d : dict_get k (dict_set k v d) = Some v.
Proof.
  induction d as [|[k' v'] d IH]; cbn.
  - now rewrite String.eqb_refl.
  - destruct (String.eqb k' k) eqn:E; cbn; rewrite E; [reflexivity|exact IH].
Qed.

Lemma dict_get_set_ne {V} k n (v : V) d :
  n <> k -> dict_get n (dict_set k v d) = dict_get n d.
Proof.
  intros Hne. apply String.eqb_neq in Hne.
  induction d as [|[k' v'] d IH]; cbn.
  - rewrite String.eqb_sym. now rewrite Hne.
  - destruct (String.eqb k' k) eqn:E; cbn.
    + apply String.eqb_eq in E. subst k'. rewrite String.eqb_sym. now rewrite Hne.
    + destruct (String.eqb k' n); [reflexivity|exact IH].
Qed.

(** Overwriting keeps the position of the key; a new key goes last. *)
Lemma dict_keys_set {V} k (v : V) d :
  dict_keys (dict_set k v d) =
  if existsb (String.eqb k) (dict_keys d) then dict_keys d else dict_keys d ++ [k].
Proof.
  induction d as [|[k' v'] d IH]; cbn; [reflexivity|].
  rewrite (String.eqb_sym k k').
  destruct (String.eqb k' k) eqn:E; cbn; [reflexivity|].
  fold (dict_keys (dict_set k v d)). fold (dict_keys d). rewrite IH.
  now destruct (existsb (String.eqb k) (dict_keys d)).
Qed.

Lemma dict_values_set_new {V} k (v : V) d :
  existsb (String.eqb k) (dict_keys d) = false ->
  dict_values (dict_set k v d) = dict_values d ++ [v].
Proof.
  induction d as [|[k' v'] d IH]; cbn; [reflexivity|].
  rewrite (String.eqb_sym k k').
  destruct (String.eqb k' k) eqn:E; cbn; [discriminate|].
  intros H. fold (dict_values (dict_set k v d)). fold (dict_values d).
  now rewrite IH.
Qed.

Lemma existsb_eqb_In k (l : list string) :
  existsb (String.eqb k) l = true <-> In k l.
Proof.
  rewrite existsb_exists. split.
  - intros (x & Hx & E). apply String.eqb_eq in E. now subst.
  - intros H. exists k. split; [exact H|apply String.eqb_refl].
Qed.

Lemma keep_first_In n names : In n (keep_first names) <-> In n names.
Proof.
  induction names as [|m names IH]; cbn; [reflexivity|].
  rewrite filter_In, IH. split.
  - intros [H|[H _]]; auto.
  - intros [H|H]; [now left|].
    destruct (String.eqb n m) eqn:E.
    + apply String.eqb_eq in E. now left.
    + right. split; [exact H|reflexivity].
Qed.

Lemma filter_snoc {A} (P : A -> bool) l x :
  List.filter P (l ++ [x]) = List.filter P l ++ (if P x then [x] else []).
Proof. now rewrite List.filter_app. Qed.

Lemma keep_first_snoc names n :
  keep_first (names ++ [n]) =
  if existsb (String.eqb n) names then keep_first names else keep_first names ++ [n].
Proof.
  induction names as [|m names IH]; cbn [app keep_first existsb]; [reflexivity|].
  rewrite IH. destruct (existsb (String.eqb n) names) eqn:E.
  - now rewrite orb_true_r.
  - rewrite orb_false_r.
    rewrite filter_snoc. destruct (String.eqb n m); cbn [negb].
    + now rewrite app_nil_r.
    + reflexivity.
Qed.

Lemma register_all_snoc ts t self :
  register_all (ts ++ [t]) self = add_tool (register_all ts self) t.
Proof. unfold register_all. now rewrite fold_left_app. Qed.

Lemma last_named_snoc n ts t :
  last_named n (ts ++ [t]) =
  if String.eqb (name t) n then Some t else last_named n ts.
Proof. unfold last_named. now rewrite rev_app_distr. Qed.

Lemma registered_keys ts client w :
  dict_keys (tools (register_all ts (init client w))) = keep_first (map name ts).
Proof.
  induction ts as [|t ts IH] using rev_ind; [reflexivity|].
  rewrite register_all_snoc, map_app. cbn [map].
  rewrite keep_first_snoc. cbn [add_tool set_tools tools].
  rewrite dict_keys_set, IH.
  destruct (existsb (String.eqb (name t)) (map name ts)) eqn:E.
  - apply existsb_eqb_In in E. apply (proj2 (keep_first_In _ _)) in E.
    apply existsb_eqb_In in E. now rewrite E.
  - destruct (existsb (String.eqb (name t)) (keep_first (map name ts))) eqn:E';
      [|reflexivity].
    apply existsb_eqb_In in E'. apply (proj1 (keep_first_In _ _)) in E'.
    apply existsb_eqb_In in E'. congruence.
Qed.

Lemma registered_lookup ts client w n :
  dict_get n (tools (register_all ts (init client w))) = last_named n ts.
Proof.
  induction ts as [|t ts IH] using rev_ind; [reflexivity|].
  rewrite register_all_snoc, last_named_snoc. cbn [add_tool set_tools tools].
  destruct (String.eqb (name t) n) eqn:E.
  - apply String.eqb_eq in E. subst n. apply dict_get_set_eq.
  - rewrite dict_get_set_ne; [exact IH|].
    intros ->. now rewrite String.eqb_refl in E.
Qed.

Lemma registered_values_distinct ts client w :
  List.NoDup (map name ts) ->
  dict_values (tools (register_all ts (init client w))) = ts.
Proof.
  induction ts as [|t ts IH] using rev_ind; intros Hnd; [reflexivity|].
  rewrite map_app in Hnd. cbn [map] in Hnd.
  apply List.NoDup_remove in Hnd as [Hnd Hnot]. rewrite app_nil_r in Hnd, Hnot.
  rewrite register_all_snoc. cbn [add_tool set_tools tools].
  rewrite dict_values_set_new, IH; [reflexivity|exact Hnd|].
  rewrite registered_keys.
  destruct (existsb _ _) eqn:E; [|reflexivity].
  apply existsb_eqb_In in E. apply (proj1 (keep_first_In _ _)) in E.
  contradiction.
Qed.

Lemma keep_first_NoDup names : List.NoDup (keep_first names).
Proof.
  induction names as [|n names IH]; cbn; constructor.
  - rewrite filter_In. intros [_ H]. now rewrite String.eqb_refl in H.
  - now apply List.NoDup_filter.
Qed.

(** With distinct keys, the values are what looking each key up gives. *)
Lemma dict_values_get {V} (d : list (string * V)) :
  List.NoDup (dict_keys d) ->
  map Some (dict_values d) = map (fun k => dict_get k d) (dict_keys d).
Proof.
  induction d as [|[k v] d IH]; intros Hnd; [reflexivity|].
  cbn in Hnd. apply List.NoDup_cons_iff in Hnd as [Hnot Hnd].
  cbn. rewrite String.eqb_refl. f_equal.
  fold (dict_values d). fold (dict_keys d). rewrite (IH Hnd).
  apply map_ext_in. intros k' Hin.
  destruct (String.eqb k k') eqn:E; [|reflexivity].
  apply String.eqb_eq in E. subst. contradiction.
Qed.

(** Every entry is filed under the name of its tool. *)
Lemma registered_entries_named ts client w :
  Forall (fun kv => fst kv = name (snd kv)) (tools (register_all ts (init client w))).
Proof.
  induction ts as [|t ts IH] using rev_ind; [constructor|].
  rewrite register_all_snoc. cbn [add_tool set_tools tools].
  induction IH as [|[k v] d Hkv Hd IHd]; cbn.
  - now repeat constructor.
  - destruct (String.eqb k (name t)) eqn:E; constructor; try assumption.
    now apply String.eqb_eq in E.
Qed.

Lemma named_values_keys (d : list (string * Tool)) :
  Forall (fun kv => fst kv = name (snd kv)) d ->
  map name (dict_values d) = dict_keys d.
Proof.
  induction 1 as [|[k v] d Hkv _ IH]; cbn; [reflexivity|].
  cbn in Hkv. fold (dict_values d). fold (dict_keys d). now rewrite IH, Hkv.
Qed.

(** C7 (as the code has it). Registering never fails, and after any
    sequence of registrations on a fresh agent: looking a name up gives
    the tool registered last under it; the tools are listed, and
    advertised to the remote model, in the order in which their names were
    first registered, each name with the tool registered last under it (an
    overwritten entry keeps the place of the first registration of its
    name); when all names are distinct this is the order of
    registration. Every later call of the remote model advertises that
    list. *)
Theorem registry_overwrites_in_place ts client w :
  let self := register_all ts (init client w) in
  (forall n, dict_get n (tools self) = last_named n ts) /\
  dict_keys (tools self) = keep_first (map name ts) /\
  map Some (dict_values (tools self)) =
    map (fun n => last_named n ts) (keep_first (map name ts)) /\
  anthropic_tools self = map tool_param (dict_values (tools self)) /\
  map tool_name (anthropic_tools self) = keep_first (map name ts) /\
  (List.NoDup (map name ts) -> anthropic_tools self = map tool_param ts) /\
  (forall a, tools a = tools self -> ts <> [] ->
             request_tools (build_request a) = Some (anthropic_tools self)).
Proof.
  cbn zeta.
  assert (Hnames : map tool_name (anthropic_tools (register_all ts (init client w))) =
                   keep_first (map name ts)).
  { unfold anthropic_tools. rewrite map_map. cbn [tool_param tool_name].
    change (map (fun x => name x)) with (map name).
    rewrite named_values_keys by apply registered_entries_named.
    apply registered_keys. }
  split; [intros n; apply registered_lookup|].
  split; [apply registered_keys|].
  split; [|split; [reflexivity|split; [exact Hnames|split]]].
  - rewrite dict_values_get by (rewrite registered_keys; apply keep_first_NoDup).
    rewrite registered_keys. apply map_ext. intros n. apply registered_lookup.
  - intros Hnd. unfold anthropic_tools. now rewrite registered_values_distinct.
  - intros a Ha Hts. unfold build_request. cbn [request_tools].
    assert (Ea : anthropic_tools a = anthropic_tools (register_all ts (init client w)))
      by (unfold anthropic_tools; now rewrite Ha).
    rewrite Ea.
    destruct (anthropic_tools (register_all ts (init client w))) eqn:E; [|reflexivity].
    destruct ts as [|t ts]; [congruence|]. discriminate Hnames.
Qed.

End RegistryFacts.

(** ** Worked instances *)

Section Instances.
Import Agent Notions Sample.

(** *** The shell tool *)

(** An upper-case removal command, padded with spaces, is blocked. *)
Lemma bash_denylist_blocks_rm :
  PyStr.str_in "rm" (PyStr.lower "  RM -rf build  ") = true /\
  exists p',
    In p' SafeBashTool.DANGEROUS_PATTERNS /\
    SafeBashTool.execute SafeBashTool.DANGEROUS_PATTERNS
      {| SafeBashTool.command := "  RM -rf build  " |} empty_world =
      (SafeBashTool.blocked_message p', empty_world) /\
    spawned (snd (SafeBashTool.execute SafeBashTool.DANGEROUS_PATTERNS
                    {| SafeBashTool.command := "  RM -rf build  " |} empty_world)) =
      spawned empty_world.
Proof.
  split; [reflexivity|].
  apply (bash_denylist_blocks_before_spawn
           SafeBashTool.DANGEROUS_PATTERNS
           {| SafeBashTool.command := "  RM -rf build  " |} empty_world "rm").
  - apply Permutation_refl.
  - cbn. auto.
  - reflexivity.
Defined.

(** A read-only command passes both lists and is run; a command that only
    contains a pattern inside a word is blocked all the same. *)
Example bash_runs_ls :
  SafeBashTool.execute SafeBashTool.DANGEROUS_PATTERNS
    {| SafeBashTool.command := "ls -la" |} empty_world =
  ("(No output)", mkWorld ∅ [["bash"; "-c"; "ls -la"]] quiet_os).
Proof. reflexivity. Qed.

Example bash_blocks_inside_word :
  fst (SafeBashTool.execute SafeBashTool.DANGEROUS_PATTERNS
         {| SafeBashTool.command := "cat summary.txt" |} empty_world) =
  SafeBashTool.blocked_message "su".
Proof. reflexivity. Qed.

(** *** The turn loop *)

Lemma text_reply_ends_turn_instance :
  exists self',
    _process_conversation 1 hello_session = Some self' /\
    requests self' = requests hello_session ++ [build_request hello_session] /\
    conversation self' =
      conversation hello_session ++ [to_param {| reply_content := [TextBlock "Hello!"] |}] /\
    world self' = world hello_session.
Proof.
  apply (proj2 (reply_without_tool_use_ends_turn
                  hello_session {| reply_content := [TextBlock "Hello!"] |} 0 eq_refl)).
  reflexivity.
Defined.


Lemma transport_failure_instance :
  (exists self',
      _process_conversation 0 down_session = Some self' /\
      conversation self' = conversation down_session /\
      requests self' = requests down_session ++ [build_request down_session]) /\
  (exists self',
      process_loop 1 two_requests down_session = Some self' /\
      conversation self' =
        conversation down_session ++
        [tool_message [ToolResultBlock "toolu_1" "Tool 'echo' not found" None;
                       ToolResultBlock "toolu_2" "Tool 'ghost' not found" None]]) /\
  (exists self',
      session 0 [Line "hello"; EndOfInput] (init client_down empty_world) =
        session 0 [EndOfInput] self' /\
      conversation self' = [user_message "hello"]).
Proof.
  pose proof transport_failure_keeps_transcript as (Hfirst & Hloop & Hsession).
  split; [|split].
  - apply (Hfirst down_session 0 (Exception "Connection error.")). reflexivity.
  - destruct (Hloop down_session two_requests 0
                [ToolResultBlock "toolu_1" "Tool 'echo' not found" None;
                 ToolResultBlock "toolu_2" "Tool 'ghost' not found" None]
                (snd (scan_blocks (reply_content two_requests) down_session))
                (Exception "Connection error."))
      as (self' & Hp & Hc & _); [reflexivity|discriminate|reflexivity|].
    exists self'. split; [exact Hp|exact Hc].
  - apply (Hsession (init client_down empty_world) 0 "hello" [EndOfInput]
                    (Exception "Connection error.")); reflexivity.
Defined.

(** A whole turn: a reply with a request, the tool, the results, a reply
    with text. Two rounds of the loop are needed, and two remote calls
    are made. *)
Example turn_with_one_tool_round :
  option_map conversation (_process_conversation 2 tool_once_session) =
    Some [ user_message "hi";
           {| role := assistant;
              content := Blocks [TextBlock "Let me check.";
                                 ToolUseBlock "toolu_1" "echo" ∅] |};
           tool_message [ToolResultBlock "toolu_1" "echo" None];
           {| role := assistant; content := Blocks [TextBlock "Done."] |} ] /\
  option_map (fun a => length (requests a)) (_process_conversation 2 tool_once_session) =
    Some 2 /\
  _process_conversation 1 tool_once_session = None.
Proof. repeat split; reflexivity. Qed.

(** *** The executor *)

Lemma unknown_tool_instance :
  _execute_tool hello_session "ghost" ∅ = ("Tool 'ghost' not found", hello_session).
Proof.
  apply (unknown_tool_reported_as_text hello_session "ghost" ∅). reflexivity.
Defined.

(** C4, as stated, fails: for the unregistered name [ghost] the result
    block holds the text [Tool 'ghost' not found] and no [is_error] key, not
    the text [capability 'ghost' not found] with [is_error] set. *)
Lemma unknown_tool_not_capability_error :
  fst (fst (handle_block ([], false, hello_session) (ToolUseBlock "toolu_1" "ghost" ∅))) =
    [ToolResultBlock "toolu_1" "Tool 'ghost' not found" None] /\
  fst (fst (handle_block ([], false, hello_session) (ToolUseBlock "toolu_1" "ghost" ∅))) <>
    [ToolResultBlock "toolu_1" "capability 'ghost' not found" (Some true)].
Proof. split; [reflexivity|discriminate]. Qed.

Lemma missing_field_instance :
  _execute_tool edit_session "edit_file" no_old_str =
    ("Error executing tool edit_file: " +:+
     str_exn (ValidationError "EditFileInput" [("old_str", "Field required")]),
     edit_session) /\
  exists errs,
    Base.input_model edit_file_tool no_old_str =
      inl (ValidationError "EditFileInput" errs) /\ errs <> [].
Proof.
  pose proof invalid_arguments_never_reach_execute as [Hexec Hedit].
  split.
  - apply (Hexec edit_session edit_file_tool "edit_file" no_old_str); reflexivity.
  - apply Hedit. left. exists "old_str". split; [cbn; auto|reflexivity].
Defined.

(** *** The edit tool *)

Lemma prefix_of_nil (m : list string) : m `prefix_of` [] -> m = [].
Proof. intros [k Hk]. symmetry in Hk. now apply app_eq_nil in Hk. Qed.

Lemma dirs_exist_root fs : Pathlib.dirs_exist fs [].
Proof. intros m Hm Hpre. apply prefix_of_nil in Hpre. congruence. Qed.

Lemma all_missing_none fs base : Pathlib.all_missing fs base [].
Proof. intros m Hm Hpre. apply prefix_of_nil in Hpre. congruence. Qed.

Lemma docs_exist : Pathlib.dirs_exist (fs docs_world) ["docs"].
Proof.
  intros m Hm [k Hk]. destruct m as [|x m]; [congruence|].
  injection Hk as <- Hk. symmetry in Hk. apply app_eq_nil in Hk as [-> _].
  reflexivity.
Qed.

Lemma deep_missing : Pathlib.all_missing (fs empty_world) [] ["a"; "b"].
Proof.
  intros m Hm [k Hk]. destruct m as [|x m]; [congruence|].
  injection Hk as <- Hk. destruct m as [|y m]; [reflexivity|].
  injection Hk as <- Hk. symmetry in Hk. apply app_eq_nil in Hk as [-> _].
  reflexivity.
Qed.


Lemma edit_deep_leaves_directories :
  fst (EditFileTool.execute edit_deep empty_world) = "String not found in file: 'x'" /\
  Pathlib.node_at (fs (snd (EditFileTool.execute edit_deep empty_world)))
                  ["a"; "b"; "c.txt"] = None /\
  Pathlib.is_dir (fs (snd (EditFileTool.execute edit_deep empty_world))) ["a"; "b"] = true /\
  Pathlib.is_dir (fs empty_world) ["a"; "b"] = false.
Proof.
  destruct (edit_file_creates_parents_before_failing edit_deep empty_world [] ["a"; "b"])
    as (fs1 & _ & _ & _ & Hfail);
    [reflexivity | discriminate | apply dirs_exist_root | reflexivity
    | exact deep_missing | reflexivity |].
  destruct Hfail as (E & Hfile & Hdir & Hbefore); [discriminate|].
  split; [now rewrite E|]. split; [exact Hfile|]. split; [exact Hdir|exact Hbefore].
Defined.

Lemma edit_new_goes_through_replacement :
  fst (EditFileTool.execute_return edit_new empty_world) =
    EditFileTool.Edited ["new.txt"] 1 /\
  Pathlib.read_text (fs (snd (EditFileTool.execute edit_new empty_world))) ["new.txt"] =
    inr "hello".
Proof.
  pose proof edit_file_empty_old_str_creates_by_replacement as (Hnew & _ & _).
  destruct (Hnew edit_new empty_world [] [])
    as (fs1 & _ & E & R);
    [reflexivity | reflexivity | apply dirs_exist_root | reflexivity
    | apply all_missing_none | reflexivity |].
  split; [now rewrite E|exact R].
Defined.

(** *** The registry *)

(** C7, as stated, fails: after registering [a], [b] and [a] again, the
    tool registered last is advertised first, so the list is not the
    registrations in force in the order in which they were made. *)
Lemma overwritten_tool_keeps_first_place :
  anthropic_tools (register_all [first_a; only_b; second_a]
                                (init (client_text "ok") empty_world)) =
    [tool_param second_a; tool_param only_b] /\
  map tool_param (in_force [first_a; only_b; second_a]) =
    [tool_param only_b; tool_param second_a] /\
  anthropic_tools (register_all [first_a; only_b; second_a]
                                (init (client_text "ok") empty_world)) <>
    map tool_param (in_force [first_a; only_b; second_a]).
Proof.
  split; [reflexivity|]. split; [reflexivity|].
  intros H. vm_compute in H. discriminate H.
Qed.

Lemma registry_instance :
  List.NoDup (map name [first_a; only_b]) /\
  anthropic_tools (register_all [first_a; only_b] (init (client_text "ok") empty_world)) =
    map tool_param [first_a; only_b].
Proof.
  assert (Hnd : List.NoDup (map name [first_a; only_b])).
  { repeat constructor; cbn; intuition discriminate. }
  split; [exact Hnd|].
  apply (registry_overwrites_in_place [first_a; only_b] (client_text "ok") empty_world).
  exact Hnd.
Defined.

End Instances.

(** ** More on the turn loop: what a turn appends and what it sends *)

Section TurnInvariants.
Import Agent Notions MoreNotions.

Lemma request_tools_same a b :
  tools b = tools a -> request_tools (build_request b) = request_tools (build_request a).
Proof. intros H. unfold build_request, anthropic_tools. cbn. now rewrite H. Qed.

Lemma tool_rounds_cons_tool results rest :
  tool_rounds (tool_message results :: rest) = S (tool_rounds rest).
Proof. reflexivity. Qed.

Lemma tool_rounds_cons_reply message rest :
  tool_rounds (to_param message :: rest) = tool_rounds rest.
Proof. reflexivity. Qed.

Lemma request_of_turn_shift a b pre suffix r :
  tools b = tools a ->
  conversation b = conversation a ++ pre ->
  request_of_turn b suffix r ->
  request_of_turn a (pre ++ suffix) r.
Proof.
  intros Ht Hc (Hm & Hk & Hrt & sent & [k Hk'] & Hs).
  repeat split; try assumption.
  - rewrite Hrt. now apply request_tools_same.
  - exists (pre ++ sent). split.
    + exists k. rewrite Hk'. now rewrite <- app_assoc.
    + rewrite Hs, Hc. now rewrite <- app_assoc.
Qed.

(** The invariant of the [while True] loop. *)
Lemma process_loop_inv : forall fuel message a a',
  process_loop fuel message a = Some a' ->
  tools a' = tools a /\ client a' = client a /\
  exists rest news,
    conversation a' = conversation a ++ rest /\
    exchange (to_param message :: rest) /\
    requests a' = requests a ++ news /\
    length news = tool_rounds rest /\
    Forall (request_of_turn a rest) news.
Proof.
  induction fuel as [|fuel IH]; intros message a a' Hrun; [discriminate|].
  cbn [process_loop] in Hrun. unfold scan_blocks in Hrun.
  destruct (scan_invariant (reply_content message) [] false a)
    as (results & a1 & Hf & Hids & (Ht & Hc & Hcl & Hr) & _).
  rewrite Hf in Hrun. cbn [orb map app] in Hrun, Hids.
  destruct (tool_use_ids (reply_content message)) as [|id ids] eqn:Eids.
  - cbn in Hrun. injection Hrun as <-.
    split; [exact Ht|]. split; [exact Hcl|].
    exists [], []. rewrite !app_nil_r. repeat split; try assumption.
    + now apply exchange_final.
    + constructor.
  - cbn [length Nat.eqb negb] in Hrun.
    destruct results as [|r results]; [discriminate Hids|].
    change {| role := user; content := Blocks (r :: results) |}
      with (tool_message (r :: results)) in Hrun.
    set (tm := tool_message (r :: results)) in *.
    set (a2 := append_message a1 tm) in *.
    assert (Hreq : request_of_turn a [tm] (build_request a2)).
    { repeat split.
      - apply (request_tools_same a a2). exact Ht.
      - exists [tm]. split; [reflexivity|]. cbn. now rewrite Hc. }
    assert (Hex_ids : tool_use_ids (reply_content message) <> []) by (rewrite Eids; discriminate).
    assert (Hmatch : map result_id (r :: results) =
                     map Some (tool_use_ids (reply_content message))) by now rewrite Eids.
    unfold _call_claude in Hrun.
    destruct (client a2 (requests a2) (build_request a2)) as [e|message'] eqn:Ecall.
    + injection Hrun as <-. cbn [tools client conversation requests print log_request].
      split; [exact Ht|]. split; [exact Hcl|].
      exists [tm], [build_request a2]. cbn [conversation requests append_message a2].
      rewrite Hc, Hr. repeat split.
      * now apply exchange_failed.
      * now constructor.
    + set (a3 := append_message (log_request a2 (build_request a2)) (to_param message'))
        in Hrun.
      apply IH in Hrun as (Ht' & Hcl' & rest & news & Hc' & Hex & Hr' & Hlen & Hall).
      assert (Ht3 : tools a3 = tools a) by exact Ht.
      assert (Hcl3 : client a3 = client a) by exact Hcl.
      assert (Hc3 : conversation a3 = conversation a ++ [tm; to_param message'])
        by (cbn; rewrite Hc, <- app_assoc; reflexivity).
      assert (Hr3 : requests a3 = requests a ++ [build_request a2])
        by (cbn; now rewrite Hr).
      split; [congruence|]. split; [congruence|].
      exists (tm :: to_param message' :: rest), (build_request a2 :: news).
      split; [rewrite Hc', Hc3, <- app_assoc; reflexivity|].
      split; [now apply exchange_round|].
      split; [rewrite Hr', Hr3, <- app_assoc; reflexivity|].
      split; [cbn [length]; rewrite Hlen; reflexivity|].
      constructor.
      * destruct Hreq as (H1 & H2 & H3 & sent & _ & H4).
        repeat split; try assumption.
        exists [tm]. split; [now exists (to_param message' :: rest)|].
        cbn. now rewrite Hc.
      * eapply List.Forall_impl; [|exact Hall]. intros q Hq.
        exact (request_of_turn_shift a a3 [tm; to_param message'] rest q Ht3 Hc3 Hq).
Qed.

(** The same for the whole of [_process_conversation]. *)
Lemma process_conversation_inv fuel self self' :
  _process_conversation fuel self = Some self' ->
  tools self' = tools self /\ client self' = client self /\
  exists suffix news,
    conversation self' = conversation self ++ suffix /\
    (suffix = [] \/ exchange suffix) /\
    requests self' = requests self ++ news /\
    length news = S (tool_rounds suffix) /\
    Forall (request_of_turn self suffix) news.
Proof.
  unfold _process_conversation, _call_claude. intros Hrun.
  assert (Hfirst : forall suffix, request_of_turn self suffix (build_request self)).
  { intros suffix. repeat split. exists []. split; [now exists suffix|].
    now rewrite app_nil_r. }
  destruct (client self (requests self) (build_request self)) as [e|message] eqn:Ecall.
  - injection Hrun as <-. split; [reflexivity|]. split; [reflexivity|].
    exists [], [build_request self]. cbn. rewrite app_nil_r.
    repeat split; auto.
  - apply process_loop_inv in Hrun
      as (Ht & Hcl & rest & news & Hc & Hex & Hr & Hlen & Hall).
    cbn [tools client conversation requests append_message log_request] in *.
    split; [exact Ht|]. split; [exact Hcl|].
    exists (to_param message :: rest), (build_request self :: news).
    split; [rewrite Hc, <- app_assoc; reflexivity|].
    split; [now right|].
    split; [rewrite Hr, <- app_assoc; reflexivity|].
    split; [cbn [length]; now rewrite Hlen|].
    constructor; [apply Hfirst|].
    eapply List.Forall_impl; [|exact Hall]. intros q Hq.
    refine (request_of_turn_shift self _ [to_param message] rest q _ _ Hq);
      reflexivity.
Qed.


(** X2. A turn never changes the registry or the client, and it makes one
    remote call more than it appends tool-result messages. Each request it
    makes names the fixed model and token limit, advertises the tools of
    the agent, and carries the transcript as it stood at the time: the
    transcript from before the turn followed by a prefix of what the turn
    appends. *)
Theorem turn_requests_carry_transcript fuel self self' :
  _process_conversation fuel self = Some self' ->
  tools self' = tools self /\ client self' = client self /\
  exists suffix news,
    conversation self' = conversation self ++ suffix /\
    requests self' = requests self ++ news /\
    length news = S (tool_rounds suffix) /\
    Forall (request_of_turn self suffix) news.
Proof.
  intros Hrun.
  apply process_conversation_inv in Hrun
    as (Ht & Hcl & suffix & news & Hc & _ & Hr & Hlen & Hall).
  split; [exact Ht|]. split; [exact Hcl|]. now exists suffix, news.
Qed.

(** A whole session keeps what a turn keeps. *)
Lemma session_inv fuel : forall inputs self self',
  session fuel inputs self = Some self' ->
  tools self' = tools self /\ client self' = client self /\
  conversation self `prefix_of` conversation self' /\
  requests self `prefix_of` requests self'.
Proof.
  induction inputs as [|ev inputs IH]; intros self self' Hrun.
  - injection Hrun as <-. repeat split; reflexivity.
  - cbn [session] in Hrun. destruct ev as [user_input|].
    + destruct (negb (PyStr.truthy (PyStr.strip user_input))).
      * apply IH in Hrun as (Ht & Hcl & Hc & Hr). now repeat split.
      * destruct (_process_conversation fuel _) as [self1|] eqn:Eturn; [|discriminate].
        apply process_conversation_inv in Eturn
          as (Ht1 & Hcl1 & suffix & news & Hc1 & _ & Hr1 & _).
        apply IH in Hrun as (Ht & Hcl & Hc & Hr).
        cbn [tools client conversation requests append_message print] in *.
        split; [congruence|]. split; [congruence|]. split.
        -- etransitivity; [|exact Hc]. rewrite Hc1, <- app_assoc.
           now apply prefix_app_r.
        -- etransitivity; [|exact Hr]. rewrite Hr1. now apply prefix_app_r.
    + injection Hrun as <-. repeat split; reflexivity.
Qed.

(** X3. Running a session never changes the registry or the client, and
    both the transcript and the log of remote calls only grow: what was
    there before the session is a prefix of what is there after it. *)
Theorem session_only_appends fuel inputs self self' :
  run fuel inputs self = Some self' ->
  tools self' = tools self /\ client self' = client self /\
  conversation self `prefix_of` conversation self' /\
  requests self `prefix_of` requests self'.
Proof. unfold run. intros Hrun. now apply session_inv in Hrun. Qed.



End TurnInvariants.

(** ** The default input function *)

Section DefaultInput.
Import Agent Notions MoreNotions Defaults.

Lemma no_goodbye_refl a : no_goodbye_since a a.
Proof. exists []. rewrite app_nil_r. split; [reflexivity|intros []]. Qed.

Lemma no_goodbye_trans a b c :
  no_goodbye_since a b -> no_goodbye_since b c -> no_goodbye_since a c.
Proof.
  intros (x & Hx & Nx) (y & Hy & Ny). exists (x ++ y). split.
  - now rewrite Hy, Hx, <- app_assoc.
  - rewrite in_app_iff. tauto.
Qed.

Lemma no_goodbye_print a p : p <> PrintGoodbye -> no_goodbye_since a (print a p).
Proof.
  intros Hp. exists [p]. split; [reflexivity|].
  intros [H|[]]. congruence.
Qed.

Lemma no_goodbye_same_console a b : console b = console a -> no_goodbye_since a b.
Proof. intros H. exists []. rewrite app_nil_r. split; [exact H|intros []]. Qed.

Lemma execute_tool_console self tname input :
  console (snd (_execute_tool self tname input)) = console self.
Proof.
  unfold _execute_tool. destruct (dict_get tname (tools self)) as [tool|];
    [|reflexivity].
  now destruct (call tool input (world self)) as [[e|r] w'].
Qed.

Lemma handle_block_no_goodbye tool_results has_tool_use a b :
  no_goodbye_since a (snd (handle_block (tool_results, has_tool_use, a) b)).
Proof.
  destruct b as [text|id tname input|rid rc re|ty]; cbn [handle_block snd];
    try apply no_goodbye_refl.
  - now apply no_goodbye_print.
  - pose proof (execute_tool_console (print a (PrintToolCall tname input)) tname input)
      as Hc.
    destruct (_execute_tool (print a (PrintToolCall tname input)) tname input)
      as [result a2]. cbn [snd] in *.
    eapply no_goodbye_trans; [apply (no_goodbye_print a (PrintToolCall tname input))|];
      [discriminate|].
    eapply no_goodbye_trans; [apply no_goodbye_same_console; exact Hc|].
    now apply no_goodbye_print.
Qed.

Lemma scan_no_goodbye : forall blocks tool_results has_tool_use a,
  no_goodbye_since a (snd (fold_left handle_block blocks (tool_results, has_tool_use, a))).
Proof.
  induction blocks as [|b blocks IH]; intros tool_results has_tool_use a;
    [apply no_goodbye_refl|].
  cbn [fold_left].
  pose proof (handle_block_no_goodbye tool_results has_tool_use a b) as Hb.
  destruct (handle_block (tool_results, has_tool_use, a) b) as [[r f] a1].
  eapply no_goodbye_trans; [exact Hb|apply IH].
Qed.

Lemma process_loop_no_goodbye : forall fuel message a a',
  process_loop fuel message a = Some a' -> no_goodbye_since a a'.
Proof.
  induction fuel as [|fuel IH]; intros message a a' Hrun; [discriminate|].
  cbn [process_loop] in Hrun. unfold scan_blocks in Hrun.
  pose proof (scan_no_goodbye (reply_content message) [] false a) as Hscan.
  destruct (fold_left handle_block (reply_content message) ([], false, a))
    as [[results flag] a1]. cbn [snd] in Hscan.
  destruct flag; cbn [negb] in Hrun.
  - destruct results as [|r results].
    + eapply no_goodbye_trans; [exact Hscan|]. now apply (IH message).
    + unfold _call_claude in Hrun.
      destruct (client _ _ _) as [e|message'].
      * injection Hrun as <-. eapply no_goodbye_trans; [exact Hscan|].
        exists [PrintCallError e]. split; [reflexivity|].
        intros [H|[]]. discriminate.
      * apply IH in Hrun. eapply no_goodbye_trans; [exact Hscan|].
        eapply no_goodbye_trans; [|exact Hrun]. now apply no_goodbye_same_console.
  - injection Hrun as <-. exact Hscan.
Qed.

Lemma process_conversation_no_goodbye fuel a a' :
  _process_conversation fuel a = Some a' -> no_goodbye_since a a'.
Proof.
  unfold _process_conversation, _call_claude.
  destruct (client _ _ _) as [e|message]; intros Hrun.
  - injection Hrun as <-. exists [PrintCallError e]. split; [reflexivity|].
    intros [H|[]]. discriminate.
  - apply process_loop_no_goodbye in Hrun.
    eapply no_goodbye_trans; [|exact Hrun]. now apply no_goodbye_same_console.
Qed.

Lemma default_session_no_goodbye fuel : forall evs self self',
  session fuel (map _default_input evs) self = Some self' ->
  no_goodbye_since self self'.
Proof.
  induction evs as [|ev evs IH]; intros self self' Hrun.
  - injection Hrun as <-. apply no_goodbye_refl.
  - cbn [map session] in Hrun.
    assert (Hprompt : no_goodbye_since self (print self PrintPrompt))
      by now apply no_goodbye_print.
    destruct ev as [user_input|]; cbn [_default_input] in Hrun.
    + destruct (negb (PyStr.truthy (PyStr.strip user_input))).
      * eapply no_goodbye_trans; [exact Hprompt|]. now apply IH.
      * destruct (_process_conversation fuel _) as [self1|] eqn:Eturn; [|discriminate].
        apply process_conversation_no_goodbye in Eturn. apply IH in Hrun.
        eapply no_goodbye_trans; [exact Hprompt|].
        eapply no_goodbye_trans; [|exact Hrun].
        eapply no_goodbye_trans; [|exact Eturn]. now apply no_goodbye_same_console.
    + cbn in Hrun. eapply no_goodbye_trans; [exact Hprompt|]. now apply IH.
Qed.

(** X5. With the default input function the end of the input does not end
    the session. [_default_input] turns [EOFError] and [KeyboardInterrupt]
    into an empty line, which the loop skips: whatever the script, a
    session that returns has not printed the farewell since it started; and
    on a script of [n] ends of input it has only printed [n] prompts, with
    the transcript and the log of remote calls untouched. (An input
    function that lets the exception through ends the session at once.) *)
Theorem default_input_never_ends_session :
  (forall fuel evs self self',
      session fuel (map _default_input evs) self = Some self' ->
      ~ In PrintGoodbye (console self) ->
      ~ In PrintGoodbye (console self')) /\
  (forall fuel n self,
      exists self',
        session fuel (map _default_input (repeat EndOfInput n)) self = Some self' /\
        console self' = console self ++ repeat PrintPrompt n /\
        conversation self' = conversation self /\
        requests self' = requests self /\
        world self' = world self) /\
  (forall fuel rest self,
      session fuel (EndOfInput :: rest) self =
        Some (print (print self PrintPrompt) PrintGoodbye)).
Proof.
  split; [|split].
  - intros fuel evs self self' Hrun Hno.
    apply default_session_no_goodbye in Hrun as (extra & Hc & Hextra).
    rewrite Hc, in_app_iff. tauto.
  - intros fuel n. induction n as [|n IH]; intros self.
    + exists self. cbn. rewrite app_nil_r. now repeat split.
    + destruct (IH (print self PrintPrompt)) as (self' & Hrun & Hc & Hcv & Hr & Hw).
      exists self'. split; [exact Hrun|]. cbn [console print] in Hc.
      split; [rewrite Hc, <- app_assoc; reflexivity|]. now repeat split.
  - reflexivity.
Qed.

End DefaultInput.

(** ** Registering one tool, and agents whose tools only read *)

Section RegistryMore.
Import Agent Notions MoreNotions.

Lemma dict_set_twice {V} k (v : V) d : dict_set k v (dict_set k v d) = dict_set k v d.
Proof.
  induction d as [|[k' v'] d IH]; cbn.
  - now rewrite String.eqb_refl.
  - destruct (String.eqb k' k) eqn:E; cbn; rewrite E; [reflexivity|now rewrite IH].
Qed.

Lemma dict_set_length {V} k (v : V) d :
  length (dict_set k v d) =
  if existsb (String.eqb k) (dict_keys d) then length d else S (length d).
Proof.
  induction d as [|[k' v'] d IH]; cbn; [reflexivity|].
  rewrite (String.eqb_sym k k').
  destruct (String.eqb k' k) eqn:E; cbn; [reflexivity|].
  fold (dict_keys d). rewrite IH.
  now destruct (existsb (String.eqb k) (dict_keys d)).
Qed.

(** X6. [add_tool] on any agent: the tool is then found under its name;
    every other name resolves as before; the number of entries stays the
    same when the name was taken and grows by one when it was not; the
    transcript, the log of remote calls and the world are not touched; and
    registering the same tool again changes nothing. *)
Theorem add_tool_inserts_or_overwrites self tool :
  dict_get (name tool) (tools (add_tool self tool)) = Some tool /\
  (forall n, n <> name tool ->
             dict_get n (tools (add_tool self tool)) = dict_get n (tools self)) /\
  length (tools (add_tool self tool)) =
    (if existsb (String.eqb (name tool)) (dict_keys (tools self))
     then length (tools self) else S (length (tools self))) /\
  conversation (add_tool self tool) = conversation self /\
  requests (add_tool self tool) = requests self /\
  world (add_tool self tool) = world self /\
  add_tool (add_tool self tool) tool = add_tool self tool.
Proof.
  unfold add_tool. cbn [tools set_tools conversation requests world].
  split; [apply dict_get_set_eq|].
  split; [intros n Hn; now apply dict_get_set_ne|].
  split; [apply dict_set_length|].
  repeat split. unfold set_tools. cbn. now rewrite dict_set_twice.
Qed.

Lemma dict_get_Forall {V} (P : string * V -> Prop) k v (d : list (string * V)) :
  Forall P d -> dict_get k d = Some v -> exists k', P (k', v).
Proof.
  induction 1 as [|[k' v'] d Hkv _ IH]; cbn; [discriminate|].
  destruct (String.eqb k' k); [|exact IH].
  intros [= <-]. now exists k'.
Qed.

Lemma execute_tool_read_only self tname input :
  all_read_only self -> world (snd (_execute_tool self tname input)) = world self.
Proof.
  intros Hall. unfold _execute_tool.
  destruct (dict_get tname (tools self)) as [tool|] eqn:E; [|reflexivity].
  destruct (dict_get_Forall _ _ _ _ Hall E) as [k' Hro]. cbn in Hro.
  specialize (Hro input (world self)).
  destruct (call tool input (world self)) as [[e|r] w']; cbn in *; now subst.
Qed.

Lemma scan_read_only : forall blocks tool_results has_tool_use a,
  all_read_only a ->
  world (snd (fold_left handle_block blocks (tool_results, has_tool_use, a))) = world a.
Proof.
  induction blocks as [|b blocks IH]; intros tool_results has_tool_use a Hall;
    [reflexivity|].
  cbn [fold_left].
  destruct b as [text|id tname input|rid rc re|ty]; cbn [handle_block];
    try (now apply IH).
  - rewrite IH; [reflexivity|exact Hall].
  - pose proof (execute_tool_read_only (print a (PrintToolCall tname input)) tname input Hall)
      as Hw.
    pose proof (execute_tool_same_session (print a (PrintToolCall tname input)) tname input)
      as (Ht & _).
    destruct (_execute_tool (print a (PrintToolCall tname input)) tname input)
      as [result a2]. cbn [snd] in *.
    rewrite IH; [exact Hw|]. unfold all_read_only. cbn [tools print]. now rewrite Ht.
Qed.

Lemma process_loop_read_only : forall fuel message a a',
  all_read_only a -> process_loop fuel message a = Some a' -> world a' = world a.
Proof.
  induction fuel as [|fuel IH]; intros message a a' Hall Hrun; [discriminate|].
  cbn [process_loop] in Hrun. unfold scan_blocks in Hrun.
  pose proof (scan_read_only (reply_content message) [] false a Hall) as Hw.
  destruct (scan_invariant (reply_content message) [] false a)
    as (results & a1 & Hf & _ & (Ht & _) & _).
  rewrite Hf in Hrun, Hw. cbn [snd orb] in Hrun, Hw.
  assert (Hall1 : all_read_only a1) by (unfold all_read_only; now rewrite Ht).
  destruct (negb (Nat.eqb _ 0)); cbn [negb] in Hrun.
  - destruct results as [|r results].
    + rewrite <- Hw. now apply (IH message).
    + unfold _call_claude in Hrun. destruct (client _ _ _) as [e|message'].
      * injection Hrun as <-. exact Hw.
      * apply IH in Hrun; [|exact Hall1]. now rewrite Hrun.
  - injection Hrun as <-. exact Hw.
Qed.

Lemma session_read_only fuel : forall inputs self self',
  all_read_only self -> session fuel inputs self = Some self' -> world self' = world self.
Proof.
  induction inputs as [|ev inputs IH]; intros self self' Hall Hrun.
  - now injection Hrun as <-.
  - cbn [session] in Hrun. destruct ev as [user_input|].
    + destruct (negb (PyStr.truthy (PyStr.strip user_input))).
      * now apply IH in Hrun.
      * destruct (_process_conversation fuel _) as [self1|] eqn:Eturn; [|discriminate].
        pose proof (process_conversation_inv _ _ _ Eturn) as (Ht & _).
        unfold _process_conversation, _call_claude in Eturn.
        assert (Hw1 : world self1 = world self).
        { destruct (client _ _ _) as [e|message].
          - now injection Eturn as <-.
          - now apply process_loop_read_only in Eturn. }
        apply IH in Hrun; [congruence|].
        unfold all_read_only. now rewrite Ht.
    + now injection Hrun as <-.
Qed.

Lemma base_tool_read_only (b : Base.BaseTool) :
  (forall i w, snd (Base.execute b i w) = w) -> read_only (of_base b).
Proof.
  intros H input w. cbn [of_base call]. unfold Base.__call__.
  destruct (Base.input_model b input); [reflexivity|apply H].
Qed.

Lemma read_file_read_only : read_only (of_base read_file_tool).
Proof. now apply base_tool_read_only. Qed.

Lemma list_files_read_only raw_size : read_only (of_base (list_files_tool raw_size)).
Proof. now apply base_tool_read_only. Qed.

(** X7. An agent all of whose tools hand the world back unchanged leaves
    the world unchanged over a whole session, whatever the remote model
    answers or asks for. This holds for the agents of the first three
    applications: the chat agent has no tools, and [read_file] and
    [list_files] only read. So these applications never write a file and
    never spawn a process. *)
Theorem read_only_agents_leave_world :
  (forall fuel inputs self self',
      all_read_only self -> run fuel inputs self = Some self' ->
      world self' = world self) /\
  (forall client w raw_size,
      all_read_only (Apps.chat_agent client w) /\
      all_read_only (Apps.read_agent client w) /\
      all_read_only (Apps.list_files_agent client w raw_size)) /\
  (forall client w raw_size fuel inputs self',
      run fuel inputs (Apps.list_files_agent client w raw_size) = Some self' ->
      fs (world self') = fs w /\ spawned (world self') = spawned w).
Proof.
  assert (Hgen : forall fuel inputs self self',
             all_read_only self -> run fuel inputs self = Some self' ->
             world self' = world self).
  { intros fuel inputs self self' Hall Hrun. unfold run in Hrun.
    now apply session_read_only in Hrun. }
  assert (Happs : forall client w raw_size,
      all_read_only (Apps.chat_agent client w) /\
      all_read_only (Apps.read_agent client w) /\
      all_read_only (Apps.list_files_agent client w raw_size)).
  { intros client w raw_size. unfold all_read_only. cbn. repeat split.
    - constructor.
    - repeat constructor. apply read_file_read_only.
    - repeat constructor; [apply read_file_read_only|apply list_files_read_only]. }
  split; [exact Hgen|]. split; [exact Happs|].
  intros client w raw_size fuel inputs self' Hrun.
  apply Hgen in Hrun; [|apply Happs]. now rewrite Hrun.
Qed.

End RegistryMore.

(** ** More on the shell tool: what is run and what is not *)

Section BashMore.
Import PyStr SafeBashTool MoreNotions.

Lemma all_space_lstrip s : all_space s = true -> lstrip s = "".
Proof.
  induction s as [|c s IH]; [reflexivity|]. cbn [all_space lstrip].
  intros H. apply andb_true_iff in H as [Hc Hs]. rewrite Hc. now apply IH.
Qed.

Lemma all_space_strip s : all_space s = true -> strip s = "".
Proof. intros H. unfold strip. now rewrite all_space_lstrip. Qed.

(** X8. A command that is empty or made of white space only is answered
    with the "Empty command" error and nothing is run: the world, with its
    log of spawned processes, is handed back as it was. *)
Theorem bash_rejects_blank_command patterns input_data w :
  all_space (command input_data) = true ->
  execute patterns input_data w = ("Error: Empty command provided", w).
Proof.
  intros H. unfold execute. now rewrite (all_space_strip _ H).
Qed.


Lemma validate_None_passes patterns c :
  Permutation DANGEROUS_PATTERNS patterns ->
  _validate_command_safety patterns c = None -> passes_checks c.
Proof.
  intros Hperm. unfold _validate_command_safety, passes_checks.
  destruct (find _ patterns) eqn:Hfind; [discriminate|].
  destruct (startswith (first_word (lower c)) "./") eqn:E1; [discriminate|].
  destruct (startswith (first_word (lower c)) "/") eqn:E2; [discriminate|].
  cbn [orb].
  destruct (truthy (last_segment "/" (first_word (lower c)))) eqn:Et; cbn [andb].
  - destruct (existsb _ SAFE_COMMANDS) eqn:Ee; [|discriminate]. intros _.
    split; [|split; [reflexivity|split; [reflexivity|right]]].
    + intros p Hp. apply (find_none _ _ Hfind p). eapply Permutation_in; eauto.
    + apply existsb_exists in Ee as (x & Hx & Heq).
      apply String.eqb_eq in Heq. now subst.
  - intros _. split; [|split; [reflexivity|split; [reflexivity|left]]].
    + intros p Hp. apply (find_none _ _ Hfind p). eapply Permutation_in; eauto.
    + now apply truthy_false_iff.
Qed.

Lemma passes_validate_None patterns c :
  Permutation DANGEROUS_PATTERNS patterns ->
  passes_checks c -> _validate_command_safety patterns c = None.
Proof.
  intros Hperm (Hdeny & H1 & H2 & Hbase). unfold _validate_command_safety.
  destruct (find _ patterns) as [p|] eqn:Hfind.
  - apply find_some in Hfind as [Hin Hp].
    rewrite Hdeny in Hp; [discriminate|].
    eapply Permutation_in; [symmetry; exact Hperm|exact Hin].
  - rewrite H1, H2. cbn [orb]. destruct Hbase as [Hb|Hb].
    + apply truthy_false_iff in Hb. now rewrite Hb.
    + assert (He : existsb (String.eqb (last_segment "/" (first_word (lower c))))
                     SAFE_COMMANDS = true).
      { apply existsb_exists. eexists. split; [exact Hb|apply String.eqb_refl]. }
      rewrite He. cbn [negb]. now rewrite andb_false_r.
Qed.

Lemma run_checked_spawns c w :
  spawned (snd (run_checked c w)) = spawned w ++ [["bash"; "-c"; c]] /\
  fs (snd (run_checked c w)) = snd (os_run w ["bash"; "-c"; c] (fs w)).
Proof.
  unfold run_checked, subprocess_run.
  destruct (os_run w ["bash"; "-c"; c] (fs w)) as [r fs'].
  destruct r as [out err rc|e]; [now split|]. destruct e; now split.
Qed.


Lemma safe_commands_checked :
  forallb (fun c =>
             String.eqb (strip c) c && truthy c &&
             match _validate_command_safety DANGEROUS_PATTERNS c with
             | None => true
             | Some _ => false
             end) SAFE_COMMANDS = true.
Proof. vm_compute. reflexivity. Qed.

(** X10. The two lists agree with each other: every command on the list of
    safe commands, given on its own, contains no dangerous pattern and is
    run, whatever the order in which the patterns are iterated. *)
Theorem every_safe_command_runs_alone patterns c w :
  Permutation DANGEROUS_PATTERNS patterns ->
  In c SAFE_COMMANDS ->
  passes_checks c /\
  spawned (snd (execute patterns {| command := c |} w)) =
    spawned w ++ [["bash"; "-c"; c]].
Proof.
  intros Hperm Hin.
  pose proof safe_commands_checked as Hall. rewrite forallb_forall in Hall.
  specialize (Hall c Hin).
  apply andb_true_iff in Hall as [Hall Hv]. apply andb_true_iff in Hall as [Hs Ht].
  apply String.eqb_eq in Hs.
  assert (Hpass : passes_checks c).
  { apply (validate_None_passes DANGEROUS_PATTERNS); [reflexivity|].
    now destruct (_validate_command_safety DANGEROUS_PATTERNS c). }
  split; [exact Hpass|].
  unfold execute. cbn [command]. rewrite Hs, Ht. cbn [negb].
  rewrite (passes_validate_None _ _ Hperm Hpass). apply run_checked_spawns.
Qed.

End BashMore.

(** ** More on the edit tool, and reading back what it wrote *)

Section EditMore.
Import PyStr Pathlib EditFileTool MoreNotions.

Lemma set_fs_same w : set_fs w (fs w) = w.
Proof. now destruct w. Qed.


(** [mkdir] only creates directories on the way to its target: longer
    paths are left alone. *)
Lemma mkdir_go_keeps_longer target : forall todo above (fs fs1 : FS),
  mkdir_go target above todo fs = inr fs1 ->
  forall q, length (above ++ todo) < length q -> fs1 !! q = fs !! q.
Proof.
  induction todo as [|x todo IH]; intros above fs fs1 Hgo q Hlen.
  - now injection Hgo as <-.
  - cbn [mkdir_go] in Hgo.
    assert (Hlen' : length ((above ++ [x]) ++ todo) < length q)
      by now rewrite <- app_assoc.
    destruct (node_at fs (above ++ [x])) as [[wd|wf t]|]; [|discriminate|].
    + now apply (IH _ _ _ Hgo).
    + destruct (node_at fs above) as [[[]|wf t]|]; try discriminate.
      rewrite (IH _ _ _ Hgo q Hlen'). apply lookup_insert_ne.
      intros <-. rewrite !length_app in Hlen. cbn in Hlen. lia.
Qed.

Lemma mkdir_parents_keeps_target (fs fs1 : FS) p q :
  mkdir_parents (parent p) fs = inr fs1 ->
  is_root p = false -> length p <= length q -> fs1 !! q = fs !! q.
Proof.
  intros Hmk Hroot Hlen. unfold mkdir_parents in Hmk.
  apply (mkdir_go_keeps_longer _ _ _ _ _ Hmk). cbn [app].
  pose proof (parent_length p Hroot). lia.
Qed.

Lemma str_in_count_pos s old : str_in old s = true -> 0 < count s old.
Proof.
  unfold count. destruct old as [|c o] eqn:E; [lia|]. rewrite <- E.
  assert (Hne : old <> "") by (subst; discriminate). clear c o E.
  induction s as [|a s IH]; intros H.
  - destruct old; [congruence|discriminate].
  - cbn [str_in] in H. cbn [count_go].
    destruct (startswith (String a s) old); [lia|]. now apply IH.
Qed.

Lemma read_text_inr fs p c :
  read_text fs p = inr c <-> exists wr, node_at fs p = Some (File wr (Some c)).
Proof.
  unfold read_text. destruct (node_at fs p) as [[wd|wr [t|]]|]; split;
    try discriminate; try (intros [wr' H]; discriminate).
  - intros [= <-]. now exists wr.
  - intros [wr' [= _ <-]]. reflexivity.
Qed.

Lemma write_text_inr (fs fs' : FS) p s :
  write_text p s fs = inr fs' ->
  is_root p = false /\ fs' = <[p := File true (Some s)]> fs /\
  (node_at fs p = None \/ exists t, node_at fs p = Some (File true t)).
Proof.
  unfold write_text, node_at.
  destruct (is_root p) eqn:Hroot; [discriminate|].
  destruct (fs !! p) as [[wd|[] t]|]; try discriminate.
  - intros [= <-]. repeat split. right. now exists t.
  - destruct (if is_root (parent p) then _ else _) as [[[]|? ?]|]; try discriminate.
    intros [= <-]. repeat split. now left.
Qed.

(** The one way in which [perform_replacement] reports success. *)
Lemma perform_replacement_edited file_path old new c w q n w' :
  perform_replacement file_path old new c w = (Edited q n, w') ->
  q = file_path /\ n = count c old /\ str_in old c = true /\
  exists fs', write_text file_path (replace c old new) (fs w) = inr fs' /\
              w' = set_fs w fs'.
Proof.
  unfold perform_replacement. destruct (str_in old c) eqn:Hin.
  - destruct (write_text _ _ _) as [e|fs'] eqn:Hw.
    + intros [= He _]. destruct e; discriminate.
    + intros [= <- <- <-]. repeat split. now exists fs'.
  - rewrite (creation_guard_false _ _ _ _ Hin). discriminate.
Qed.

(** Success of [execute], taken apart. *)
Lemma execute_edited input_data w q n w' :
  execute_return input_data w = (Edited q n, w') ->
  let file_path := of_str (path input_data) in
  let old := old_str input_data in
  let new := new_str input_data in
  q = file_path /\ is_root file_path = false /\
  exists c fs1,
    mkdir_parents (parent file_path) (fs w) = inr fs1 /\
    ((exists t, node_at (fs w) file_path = Some (File true t) /\ t = Some c) \/
     (node_at (fs w) file_path = None /\ c = "")) /\
    str_in old c = true /\ n = count c old /\
    w' = set_fs w (<[file_path := File true (Some (replace c old new))]> fs1).
Proof.
  intros Hexec file_path old new. unfold execute_return in Hexec.
  fold file_path old new in Hexec.
  destruct (mkdir_parents (parent file_path) (fs w)) as [e|fs1] eqn:Hmk.
  { injection Hexec as He _. destruct e; discriminate. }
  assert (Hkeep : is_root file_path = false ->
                  node_at fs1 file_path = node_at (fs w) file_path).
  { intros Hroot. apply node_at_lookup.
    now apply (mkdir_parents_keeps_target _ _ file_path). }
  destruct (exists_ fs1 file_path) eqn:Hex.
  - destruct (negb (is_file fs1 file_path)) eqn:Hfile; [discriminate|].
    destruct (read_text fs1 file_path) as [e|c] eqn:Hread.
    { destruct e; try discriminate; injection Hexec as He _; discriminate. }
    apply perform_replacement_edited in Hexec as (-> & -> & Hin & fs' & Hw & ->).
    cbn [fs set_fs] in Hw.
    apply write_text_inr in Hw as (Hroot & -> & Hnode).
    split; [reflexivity|]. split; [exact Hroot|].
    exists c, fs1. split; [reflexivity|]. split; [|now repeat split].
    left. apply read_text_inr in Hread as [wr Hread].
    destruct Hnode as [Hnone|[t Ht]]; [congruence|].
    rewrite Hread in Ht. injection Ht as -> <-.
    exists (Some c). split; [|reflexivity]. now rewrite <- Hkeep.
  - apply perform_replacement_edited in Hexec as (-> & -> & Hin & fs' & Hw & ->).
    cbn [fs set_fs] in Hw.
    apply write_text_inr in Hw as (Hroot & -> & _).
    split; [reflexivity|]. split; [exact Hroot|].
    exists "", fs1. split; [reflexivity|]. split; [|now repeat split].
    right. split; [|reflexivity]. rewrite <- Hkeep by exact Hroot.
    unfold exists_ in Hex. now destruct (node_at fs1 file_path).
Qed.

(** X11. Whenever [execute] reports success, the count it reports is the
    number of occurrences of [old_str] in the previous content (the empty
    text for a file that was not there) and is at least one; the target
    then holds that content with [old_str] replaced; and no other path of
    the same or a greater depth has changed: besides the target, only
    parent directories can have been created. No process is spawned. *)
Theorem edit_success_reports_and_touches_only_target input_data w q n w' :
  execute_return input_data w = (Edited q n, w') ->
  let file_path := of_str (path input_data) in
  let old := old_str input_data in
  let new := new_str input_data in
  q = file_path /\ 1 <= n /\
  exists c,
    ((node_at (fs w) file_path = Some (File true (Some c))) \/
     (node_at (fs w) file_path = None /\ c = "")) /\
    n = count c old /\
    node_at (fs w') file_path = Some (File true (Some (replace c old new))) /\
    (forall p, length file_path <= length p -> p <> file_path ->
               fs w' !! p = fs w !! p) /\
    spawned w' = spawned w.
Proof.
  intros Hexec file_path old new.
  apply execute_edited in Hexec
    as (-> & Hroot & c & fs1 & Hmk & Hprev & Hin & -> & ->).
  fold file_path old new in Hmk, Hprev, Hin |- *.
  split; [reflexivity|]. split; [now apply str_in_count_pos|].
  exists c. split.
  { destruct Hprev as [(t & Ht & ->)|Hnone]; [now left|now right]. }
  split; [reflexivity|]. cbn [fs set_fs spawned].
  split; [now apply node_at_insert_eq|]. split; [|reflexivity].
  intros p Hlen Hne. transitivity (fs1 !! p).
  - apply lookup_insert_ne. congruence.
  - now apply (mkdir_parents_keeps_target _ _ file_path).
Qed.

(** X12. With the parent directories in place, a call of [execute] that
    does not report success changes nothing at all: the world it hands back
    is the one it got. In particular, on an existing text file that does
    not contain [old_str] it returns the "String not found" error. *)
Theorem edit_failure_changes_nothing input_data w :
  let file_path := of_str (path input_data) in
  dirs_exist (fs w) (parent file_path) ->
  ((forall n, fst (execute_return input_data w) <> Edited file_path n) ->
   snd (execute_return input_data w) = w) /\
  (forall wr c,
      node_at (fs w) file_path = Some (File wr (Some c)) ->
      str_in (old_str input_data) c = false ->
      execute input_data w =
        ("String not found in file: '" +:+ old_str input_data +:+ "'", w)).
Proof.
  intros file_path Hdirs. split.
  - intros Hfail. unfold execute_return in *. fold file_path in Hfail |- *.
    rewrite (mkdir_parents_existing _ _ Hdirs) in *. rewrite set_fs_same in *.
    destruct (exists_ (fs w) file_path).
    + destruct (negb (is_file (fs w) file_path)); [reflexivity|].
      destruct (read_text (fs w) file_path) as [e|c]; [now destruct e|].
      unfold perform_replacement in *.
      destruct (str_in _ c) eqn:Hin.
      * destruct (write_text _ _ _); [reflexivity|].
        exfalso. now apply (Hfail (count c (old_str input_data))).
      * now rewrite (creation_guard_false _ _ _ _ Hin).
    + unfold perform_replacement in *.
      destruct (str_in _ "") eqn:Hin.
      * destruct (write_text _ _ _); [reflexivity|].
        exfalso. now apply (Hfail (count "" (old_str input_data))).
      * now rewrite (creation_guard_false _ _ _ _ Hin).
  - intros wr c Hnode Hin. unfold execute, execute_return. fold file_path.
    rewrite (mkdir_parents_existing _ _ Hdirs), set_fs_same.
    unfold exists_, is_file, read_text. rewrite Hnode. cbn [negb].
    unfold perform_replacement. rewrite Hin.
    now rewrite (creation_guard_false _ _ _ _ Hin).
Qed.

(** An edit of an existing, writable text file that contains [old_str]. *)
Lemma execute_on_text_file input_data w c :
  let file_path := of_str (path input_data) in
  dirs_exist (fs w) (parent file_path) ->
  node_at (fs w) file_path = Some (File true (Some c)) ->
  str_in (old_str input_data) c = true ->
  execute_return input_data w =
    (Edited file_path (count c (old_str input_data)),
     set_fs w (<[file_path :=
                   File true (Some (replace c (old_str input_data) (new_str input_data)))]>
                 (fs w))).
Proof.
  intros file_path Hdirs Hnode Hin. unfold execute_return. fold file_path.
  rewrite (mkdir_parents_existing _ _ Hdirs).
  unfold exists_, is_file, read_text. cbn [fs set_fs]. rewrite Hnode. cbn [negb].
  unfold perform_replacement. cbn [fs set_fs]. rewrite Hin.
  unfold write_text. now rewrite Hnode.
Qed.





End EditMore.

(** ** The listing tool *)

Section ListFilesFacts.
Import Pathlib ListFilesTool MoreNotions.

Lemma tenths_near num den :
  (0 < den)%N ->
  (2 * (10 * num) <= 2 * (tenths num den * den) + den /\
   2 * (tenths num den * den) <= 2 * (10 * num) + den)%N.
Proof.
  intros Hden. unfold tenths, round_half_even.
  pose proof (N.div_mod (10 * num) den ltac:(lia)) as Hdm.
  pose proof (N.mod_lt (10 * num) den ltac:(lia)) as Hlt.
  set (q := (10 * num / den)%N) in *. set (r := ((10 * num) mod den)%N) in *.
  destruct ((den <? 2 * r)%N || ((2 * r =? den)%N && N.odd q)) eqn:E.
  - assert (den <= 2 * r)%N.
    { apply orb_true_iff in E as [E|E].
      - apply N.ltb_lt in E. lia.
      - apply andb_true_iff in E as [E _]. apply N.eqb_eq in E. lia. }
    lia.
  - apply orb_false_iff in E as [E _]. apply N.ltb_ge in E. lia.
Qed.

(** On a tie the tenth chosen is the even one. *)
Lemma tenths_tie_even num den k :
  (0 < den)%N -> (2 * (10 * num) = (2 * k + 1) * den)%N ->
  N.even (tenths num den) = true.
Proof.
  intros Hden Htie. unfold tenths, round_half_even.
  pose proof (N.div_mod (10 * num) den ltac:(lia)) as Hdm.
  pose proof (N.mod_lt (10 * num) den ltac:(lia)) as Hlt.
  set (q := (10 * num / den)%N) in *. set (r := ((10 * num) mod den)%N) in *.
  assert (Hq : q = k) by nia. subst k.
  assert (Hr : (2 * r = den)%N) by nia.
  rewrite (proj2 (N.eqb_eq _ _) Hr).
  replace (den <? 2 * r)%N with false by (symmetry; apply N.ltb_ge; lia).
  cbn [orb andb]. destruct (N.odd q) eqn:Eo.
  - rewrite N.add_1_r, N.even_succ. exact Eo.
  - rewrite <- N.negb_odd. now rewrite Eo.
Qed.

(** X15. [_format_size], for sizes below [2^53] (where dividing by a power
    of two is exact in floating point): below 1024 the size is printed as
    it is, in bytes; from there on it is printed in KB, MB or GB, by the
    thresholds [1024], [1024^2] and [1024^3], as a number of tenths [t]
    that is a nearest one: [t / 10] differs from the exact quotient by at
    most a twentieth, and on a tie [t] is even. So a size just under a
    threshold can be printed as [1024.0] of the smaller unit. *)
Theorem format_size_nearest_tenth size :
  (size < 2 ^ 53)%N ->
  ((size < KB)%N -> _format_size size = str_N size +:+ " bytes") /\
  (forall unit den,
      ((KB <= size < MB)%N /\ unit = " KB" /\ den = KB) \/
      ((MB <= size < GB)%N /\ unit = " MB" /\ den = MB) \/
      ((GB <= size)%N /\ unit = " GB" /\ den = GB) ->
      exists t,
        _format_size size = fmt_tenths t +:+ unit /\
        (2 * (10 * size) <= 2 * (t * den) + den)%N /\
        (2 * (t * den) <= 2 * (10 * size) + den)%N /\
        (forall k, (2 * (10 * size) = (2 * k + 1) * den)%N -> N.even t = true)).
Proof.
  intros _. split.
  - intros H. unfold _format_size. now rewrite (proj2 (N.ltb_lt _ _) H).
  - intros unit den Hcase.
    assert (Hden : (0 < den)%N)
      by (destruct Hcase as [(_ & _ & ->)|[(_ & _ & ->)|(_ & _ & ->)]]; reflexivity).
    exists (tenths size den).
    destruct (tenths_near size den Hden) as [Hlo Hhi].
    split; [|split; [exact Hlo|split; [exact Hhi|]]].
    + unfold _format_size, fmt_1f.
      destruct Hcase as [(Hs & -> & ->)|[(Hs & -> & ->)|(Hs & -> & ->)]].
      * replace (size <? KB)%N with false by (symmetry; apply N.ltb_ge; lia).
        now rewrite (proj2 (N.ltb_lt _ _) (proj2 Hs)).
      * assert (KB < MB)%N by reflexivity.
        replace (size <? KB)%N with false by (symmetry; apply N.ltb_ge; lia).
        replace (size <? MB)%N with false by (symmetry; apply N.ltb_ge; lia).
        now rewrite (proj2 (N.ltb_lt _ _) (proj2 Hs)).
      * assert (KB < MB)%N by reflexivity. assert (MB < GB)%N by reflexivity.
        replace (size <? KB)%N with false by (symmetry; apply N.ltb_ge; lia).
        replace (size <? MB)%N with false by (symmetry; apply N.ltb_ge; lia).
        replace (size <? GB)%N with false by (symmetry; apply N.ltb_ge; lia).
        reflexivity.
    + intros k. now apply tenths_tie_even.
Qed.

Lemma strip_prefix_Some : forall p q r,
  strip_prefix p q = Some r <-> q = p ++ r.
Proof.
  induction p as [|x p IH]; intros q r; cbn.
  - split; [now intros [= ->]|now intros ->].
  - destruct q as [|y q]; [split; discriminate|].
    destruct (String.eqb x y) eqn:E.
    + apply String.eqb_eq in E. subst y. rewrite IH. split; [now intros ->|].
      now intros [= ->].
    + apply String.eqb_neq in E. split; [discriminate|]. intros [= -> _]. congruence.
Qed.

Lemma child_name_Some p q x :
  child_name p q = Some x <-> q = p ++ [x] /\ is_root q = false.
Proof.
  unfold child_name. destruct (strip_prefix p q) as [r|] eqn:E.
  - apply strip_prefix_Some in E. subst q.
    destruct r as [|y [|z r]].
    + split; [discriminate|]. intros [H _]. rewrite app_nil_r in H.
      apply (f_equal (@length string)) in H. rewrite length_app in H. cbn in H. lia.
    + destruct (is_root (p ++ [y])) eqn:Er.
      * split; [discriminate|]. intros [_ H]. discriminate.
      * split; [now intros [= ->]|]. intros [H _].
        apply app_inv_head in H. now injection H as ->.
    + split; [discriminate|]. intros [H _]. apply app_inv_head in H. discriminate.
  - split; [discriminate|]. intros [H _].
    assert (strip_prefix p q = Some [x]) by now apply strip_prefix_Some.
    congruence.
Qed.

(** The entries of a directory are the paths one part longer that exist. *)
Lemma In_iterdir (fs : FS) p x :
  In x (iterdir fs p) <->
  is_root (p ++ [x]) = false /\ exists n, fs !! (p ++ [x]) = Some n.
Proof.
  unfold iterdir. rewrite <- list_elem_of_In, list_elem_of_omap. split.
  - intros (q & Hq & Hc). apply child_name_Some in Hc as [-> Hroot].
    split; [exact Hroot|].
    apply list_elem_of_In, in_map_iff in Hq as ([q n] & Hfst & Hin).
    cbn in Hfst. subst q. exists n.
    apply list_elem_of_In in Hin. now apply elem_of_map_to_list in Hin.
  - intros (Hroot & n & Hn). exists (p ++ [x]). split.
    + apply list_elem_of_In, in_map_iff. exists (p ++ [x], n). split; [reflexivity|].
      apply list_elem_of_In. now apply elem_of_map_to_list.
    + now apply child_name_Some.
Qed.

Lemma NoDup_omap_inj {A B} (f : A -> option B) (l : list A) :
  (forall a b y, f a = Some y -> f b = Some y -> a = b) ->
  List.NoDup l -> List.NoDup (omap f l).
Proof.
  intros Hinj. induction 1 as [|a l Hnot Hnd IH]; cbn; [constructor|].
  destruct (f a) as [y|] eqn:E; [|exact IH].
  constructor; [|exact IH].
  intros Hin. apply list_elem_of_In, list_elem_of_omap in Hin as (b & Hb & Hfb).
  apply list_elem_of_In in Hb. assert (a = b) by eauto. now subst.
Qed.

Lemma NoDup_iterdir (fs : FS) p : List.NoDup (iterdir fs p).
Proof.
  unfold iterdir. apply NoDup_omap_inj.
  - intros a b y Ha Hb. apply child_name_Some in Ha as [-> _].
    now apply child_name_Some in Hb as [-> _].
  - apply NoDup_ListNoDup. apply (NoDup_fst_map_to_list fs).
Qed.

Lemma insert_sorted_perm x l : Permutation (insert_sorted x l) (x :: l).
Proof.
  induction l as [|y l IH]; cbn; [reflexivity|].
  destruct (String.leb x y); [reflexivity|].
  rewrite IH. apply perm_swap.
Qed.

Lemma sorted_perm l : Permutation (sorted l) l.
Proof.
  induction l as [|x l IH]; cbn; [reflexivity|].
  rewrite insert_sorted_perm. now constructor.
Qed.

Lemma leb_false_flip x y : String.leb x y = false -> String.leb y x = true.
Proof. intros H. destruct (String.leb_total x y) as [E|E]; congruence. Qed.

Lemma insert_sorted_ascending x l :
  ascending l = true -> ascending (insert_sorted x l) = true.
Proof.
  induction l as [|y l IH]; intros Hl; [reflexivity|].
  cbn [insert_sorted]. destruct (String.leb x y) eqn:E.
  - cbn [ascending]. cbn [ascending] in Hl. now rewrite E.
  - specialize (IH ltac:(destruct l; [reflexivity|];
                          cbn [ascending] in Hl;
                          now apply andb_true_iff in Hl as [_ ?])).
    destruct l as [|z l].
    + cbn. now rewrite (leb_false_flip _ _ E).
    + cbn [insert_sorted] in *. cbn [ascending] in Hl.
      apply andb_true_iff in Hl as [Hyz Hl].
      destruct (String.leb x z) eqn:Exz.
      * cbn [ascending]. rewrite (leb_false_flip _ _ E), Exz. exact Hl.
      * change (ascending (y :: z :: insert_sorted x l))
          with (String.leb y z && ascending (z :: insert_sorted x l)).
        now rewrite Hyz, IH.
Qed.

Lemma sorted_ascending l : ascending (sorted l) = true.
Proof.
  induction l as [|x l IH]; [reflexivity|]. cbn [sorted fold_right].
  now apply insert_sorted_ascending.
Qed.

Lemma collect_entries_lines raw_size (fs : FS) p : forall names,
  (forall x, In x names -> exists n, node_at fs (p ++ [x]) = Some n) ->
  exists lines,
    collect_entries raw_size fs p names = inr lines /\
    Forall2 (shown_as raw_size fs p) names lines.
Proof.
  induction names as [|x names IH]; intros Hall.
  - exists []. split; [reflexivity|constructor].
  - destruct IH as (lines & Hc & Hf); [intros y Hy; apply Hall; now right|].
    destruct (Hall x ltac:(now left)) as [n Hn].
    cbn [collect_entries]. unfold entry. rewrite Hn, Hc.
    destruct n as [wd|wf [t|]]; eexists; (split; [reflexivity|]);
      constructor; try exact Hf; unfold shown_as; now rewrite Hn.
Qed.

(** X16. On an existing directory, [list_files] shows exactly the entries
    of the directory, each once, in ascending order of their names: a
    directory as its name followed by [/], a file as its name followed by
    its formatted size. Without entries the answer is the "is empty"
    message. The world is not changed. *)
Theorem list_files_shows_sorted_entries raw_size input_data w :
  let dir_path := of_str (path_or_dot input_data) in
  is_dir (fs w) dir_path = true ->
  exists names lines,
    (forall x, In x names <->
               is_root (dir_path ++ [x]) = false /\
               exists n, fs w !! (dir_path ++ [x]) = Some n) /\
    List.NoDup names /\
    ascending names = true /\
    Forall2 (shown_as raw_size (fs w) dir_path) names lines /\
    execute_return raw_size input_data w =
      match lines with [] => Empty dir_path | _ => Contents dir_path lines end /\
    snd (execute raw_size input_data w) = w.
Proof.
  intros dir_path Hdir.
  set (names := sorted (iterdir (fs w) dir_path)).
  assert (Hin : forall x, In x names <-> In x (iterdir (fs w) dir_path)).
  { intros x. split; apply Permutation_in;
      [apply sorted_perm | symmetry; apply sorted_perm]. }
  destruct (collect_entries_lines raw_size (fs w) dir_path names)
    as (lines & Hc & Hf).
  { intros x Hx. apply Hin, In_iterdir in Hx as (Hroot & n & Hn).
    exists n. unfold node_at. now rewrite Hroot. }
  exists names, lines. split; [|split; [|split; [|split; [exact Hf|split]]]].
  - intros x. rewrite Hin. apply In_iterdir.
  - eapply Permutation_NoDup; [symmetry; apply sorted_perm|apply NoDup_iterdir].
  - apply sorted_ascending.
  - unfold execute_return. fold dir_path. unfold exists_, is_dir in *.
    destruct (node_at (fs w) dir_path) as [[wd|wf t]|]; try discriminate.
    cbn [negb]. fold names. rewrite Hc. now destruct lines.
  - reflexivity.
Qed.

End ListFilesFacts.

(** ** The reading tools through the executor *)

Section ReadThroughExecutor.
Import Agent Pathlib Notions MoreNotions.


(** X18. [list_files] without a path: whether [path] is left out, is
    [null] or is the empty string, the tool lists the current directory,
    as it does for ["."]. A [path] of another type is refused by the input
    model and nothing is listed. *)
Theorem list_files_defaults_to_current_directory raw_size kwargs w :
  let tool := list_files_tool raw_size in
  (kwargs !! "path" = None \/ kwargs !! "path" = Some JNull \/
   kwargs !! "path" = Some (JStr "") ->
   Base.__call__ tool kwargs w =
     (inr (ListFilesTool.message
             (ListFilesTool.execute_return raw_size
                {| ListFilesTool.path := Some "." |} w)), w) /\
   of_str (ListFilesTool.path_or_dot {| ListFilesTool.path := Some "." |}) = []) /\
  (forall v, kwargs !! "path" = Some v -> v <> JNull -> is_str v = false ->
             exists e, Base.__call__ tool kwargs w = (inl e, w)).
Proof.
  intros tool. split.
  - intros Hcase. split; [|reflexivity].
    unfold Base.__call__. cbn [tool Base.input_model list_files_tool Base.execute].
    unfold ListFilesTool.ListFilesInput_model.
    destruct Hcase as [->|[->| ->]]; reflexivity.
  - intros v Hv Hnull Hstr. unfold Base.__call__.
    cbn [tool Base.input_model list_files_tool].
    unfold ListFilesTool.ListFilesInput_model. rewrite Hv.
    destruct v; try congruence; try discriminate; eexists; reflexivity.
Qed.

End ReadThroughExecutor.

(** ** What the applications advertise, and blank lines *)

Section AppsFacts.
Import Agent Notions MoreNotions.

Lemma session_requests fuel : forall inputs self self',
  session fuel inputs self = Some self' ->
  exists news,
    requests self' = requests self ++ news /\
    Forall (fun r => request_tools r = request_tools (build_request self) /\
                     model r = "claude-3-5-sonnet-20241022" /\
                     max_tokens r = 1024) news.
Proof.
  induction inputs as [|ev inputs IH]; intros self self' Hrun.
  - injection Hrun as <-. exists []. rewrite app_nil_r. now split.
  - cbn [session] in Hrun. destruct ev as [user_input|].
    + destruct (negb (PyStr.truthy (PyStr.strip user_input))).
      * now apply IH in Hrun.
      * destruct (_process_conversation fuel _) as [self1|] eqn:Eturn; [|discriminate].
        apply process_conversation_inv in Eturn
          as (Ht1 & _ & suffix & news1 & _ & _ & Hr1 & _ & Hall1).
        apply IH in Hrun as (news & Hr & Hall).
        cbn [tools requests append_message print] in *.
        exists (news1 ++ news). split; [rewrite Hr, Hr1, <- app_assoc; reflexivity|].
        apply Forall_app. split.
        -- eapply List.Forall_impl; [|exact Hall1].
           intros r (Hm & Hk & Hrt & _).
           repeat split; try assumption;
             rewrite Hrt; now apply request_tools_same.
        -- eapply List.Forall_impl; [|exact Hall].
           intros r (Hrt & Hm & Hk).
           repeat split; try assumption;
             rewrite Hrt; now apply request_tools_same.
    + injection Hrun as <-. exists []. rewrite app_nil_r. now split.
Qed.

Lemma run_advertises fuel inputs self self' ts :
  requests self = [] ->
  request_tools (build_request self) = ts ->
  run fuel inputs self = Some self' ->
  Forall (fun r => request_tools r = ts) (requests self').
Proof.
  intros Hempty Hts Hrun. unfold run in Hrun.
  apply session_requests in Hrun as (news & Hr & Hall).
  cbn [requests print] in Hr. rewrite Hempty in Hr. cbn in Hr. rewrite Hr.
  eapply List.Forall_impl; [|exact Hall]. intros r (Hrt & _).
  rewrite Hrt. exact Hts.
Qed.

(** X19. What each application tells the remote model. In every request
    made during a session, the chat application passes no tool list at
    all, and the other four advertise exactly the tools they registered,
    in the order of registration: [read_file]; then [list_files]; then
    [bash]; then [edit_file]. The list never changes during a session. *)
Theorem apps_advertise_their_tools client w patterns raw_size fuel inputs self' :
  let read := tool_param (of_base read_file_tool) in
  let list := tool_param (of_base (list_files_tool raw_size)) in
  let bash := tool_param (of_base (bash_tool patterns)) in
  let edit := tool_param (of_base edit_file_tool) in
  (run fuel inputs (Apps.chat_agent client w) = Some self' ->
   Forall (fun r => request_tools r = None) (requests self')) /\
  (run fuel inputs (Apps.read_agent client w) = Some self' ->
   Forall (fun r => request_tools r = Some [read]) (requests self')) /\
  (run fuel inputs (Apps.list_files_agent client w raw_size) = Some self' ->
   Forall (fun r => request_tools r = Some [read; list]) (requests self')) /\
  (run fuel inputs (Apps.bash_agent client w patterns raw_size) = Some self' ->
   Forall (fun r => request_tools r = Some [read; list; bash]) (requests self')) /\
  (run fuel inputs (Apps.edit_agent client w patterns raw_size) = Some self' ->
   Forall (fun r => request_tools r = Some [read; list; bash; edit]) (requests self')).
Proof.
  cbn zeta. repeat split; intros Hrun;
    (eapply run_advertises; [| |exact Hrun]; reflexivity).
Qed.

(** X20. A line that is empty or holds white space only is skipped: the
    prompt is printed, and the session goes on with the rest of the input
    from the same transcript, without any remote call, whatever the remote
    model would have answered. *)
Theorem blank_line_is_skipped fuel user_input rest self :
  all_space user_input = true ->
  session fuel (Line user_input :: rest) self =
    session fuel rest (print self PrintPrompt) /\
  conversation (print self PrintPrompt) = conversation self /\
  requests (print self PrintPrompt) = requests self.
Proof.
  intros H. cbn [session]. rewrite (all_space_strip _ H). now repeat split.
Qed.

End AppsFacts.

(** ** The edit tool: counts, lengths and the empty [old_str] *)

Section EditCounts.
Import PyStr Pathlib EditFileTool MoreNotions.

Lemma startswith_length : forall p s,
  startswith s p = true -> String.length p <= String.length s.
Proof.
  induction p as [|c p IH]; intros s H; [cbn; lia|].
  destruct s as [|a s]; [discriminate|]. cbn [startswith] in H.
  apply andb_true_iff in H as [_ H]. apply IH in H. cbn. lia.
Qed.

(** The two scans of the text agree: each counted occurrence accounts for
    the difference of the lengths of [new] and [old]. *)
Lemma scan_lengths old new : old <> "" -> forall s k,
  k <= String.length s ->
  String.length (replace_go old new k s) + k + count_go old k s * String.length old =
  String.length s + count_go old k s * String.length new.
Proof.
  intros Hold. assert (Hlen : 1 <= String.length old) by (destruct old; [congruence|cbn; lia]).
  induction s as [|a s IH]; intros k Hk.
  - cbn in Hk. assert (k = 0) by lia. subst. reflexivity.
  - cbn [replace_go count_go]. destruct k as [|k].
    + destruct (startswith (String a s) old) eqn:E.
      * apply startswith_length in E. cbn [String.length] in E.
        specialize (IH (String.length old - 1) ltac:(lia)).
        rewrite length_append. cbn [String.length]. nia.
      * specialize (IH 0 ltac:(lia)). cbn [String.length]. lia.
    + cbn [String.length] in Hk |- *. specialize (IH k ltac:(lia)). lia.
Qed.

Lemma interleave_length new : forall s,
  String.length (interleave new s) =
  String.length s + S (String.length s) * String.length new.
Proof.
  induction s as [|a s IH]; cbn [interleave String.length]; [lia|].
  rewrite length_append. cbn [String.length]. rewrite IH. lia.
Qed.

Lemma replace_count_lengths s old new :
  String.length (replace s old new) + count s old * String.length old =
  String.length s + count s old * String.length new.
Proof.
  unfold replace, count. destruct old as [|c o] eqn:E.
  - rewrite interleave_length. cbn [String.length]. lia.
  - rewrite <- E. pose proof (scan_lengths old new ltac:(subst; discriminate) s 0
                                ltac:(lia)). lia.
Qed.

(** X21. The count that a successful edit reports is the number of
    replacements it made: the length of the new content is the length of
    the previous content (the empty text for a file that was not there),
    less the reported count times the length of [old_str], plus the count
    times the length of [new_str]. *)
Theorem edit_count_accounts_for_length input_data w q n w' :
  execute_return input_data w = (Edited q n, w') ->
  exists c c',
    (read_text (fs w) (of_str (path input_data)) = inr c \/
     (node_at (fs w) (of_str (path input_data)) = None /\ c = "")) /\
    read_text (fs w') (of_str (path input_data)) = inr c' /\
    String.length c' + n * String.length (old_str input_data) =
    String.length c + n * String.length (new_str input_data).
Proof.
  intros Hexec.
  apply execute_edited in Hexec
    as (-> & Hroot & c & fs1 & Hmk & Hprev & Hin & -> & ->).
  exists c, (replace c (old_str input_data) (new_str input_data)).
  split; [|split].
  - destruct Hprev as [(t & Ht & ->)|Hnone]; [left|now right].
    apply read_text_inr. now exists true.
  - apply read_text_inr. exists true. cbn [fs set_fs]. now apply node_at_insert_eq.
  - apply replace_count_lengths.
Qed.

(** X22. An empty [old_str] on an existing text file. The empty string
    occurs in every text, so the edit goes through: on a writable text file
    of [k] characters it reports [k + 1] replacements and puts a copy of
    [new_str] before every character and one at the end. *)
Theorem edit_with_empty_old_str_interleaves input_data w c :
  let file_path := of_str (path input_data) in
  old_str input_data = "" ->
  dirs_exist (fs w) (parent file_path) ->
  node_at (fs w) file_path = Some (File true (Some c)) ->
  execute_return input_data w =
    (Edited file_path (S (String.length c)),
     set_fs w (<[file_path := File true (Some (interleave (new_str input_data) c))]>
                 (fs w))) /\
  String.length (interleave (new_str input_data) c) =
    String.length c + S (String.length c) * String.length (new_str input_data) /\
  (forall a rest, c = String a rest ->
     interleave (new_str input_data) c =
       new_str input_data +:+ String a (interleave (new_str input_data) rest)) /\
  interleave (new_str input_data) "" = new_str input_data.
Proof.
  intros file_path Hold Hdirs Hnode.
  pose proof (execute_on_text_file input_data w c Hdirs Hnode) as E.
  rewrite Hold in E. specialize (E (str_in_empty c)).
  split; [exact E|]. split; [apply interleave_length|].
  split; [now intros a rest ->|reflexivity].
Qed.

End EditCounts.

(** ** More worked instances *)

Section MoreInstances.
Import Agent Notions MoreNotions Sample MoreSamples.


Lemma tool_turn_makes_two_calls :
  exists self' news,
    _process_conversation 2 tool_once_session = Some self' /\
    requests self' = requests tool_once_session ++ news /\
    length news = 2.
Proof.
  destruct (_process_conversation 2 tool_once_session) as [self'|] eqn:E;
    [|discriminate E].
  destruct (turn_requests_carry_transcript 2 tool_once_session self' E)
    as (_ & _ & suffix & news & Hc & Hr & Hlen & _).
  exists self', news. split; [reflexivity|]. split; [exact Hr|].
  rewrite Hlen. injection E as <-. cbn in Hc.
  injection Hc as <-. reflexivity.
Defined.

Lemma tool_session_only_appends :
  exists self',
    run 2 [Line "hi"; EndOfInput] echo_session = Some self' /\
    tools self' = tools echo_session /\
    conversation echo_session `prefix_of` conversation self'.
Proof.
  destruct (run 2 [Line "hi"; EndOfInput] echo_session) as [self'|] eqn:E;
    [|discriminate E].
  destruct (session_only_appends 2 _ echo_session self' E) as (Ht & _ & Hc & _).
  now exists self'.
Defined.



Lemma three_ends_of_input_three_prompts :
  exists self',
    session 0 (map Defaults._default_input [EndOfInput; EndOfInput; EndOfInput])
            hello_session = Some self' /\
    console self' = [PrintPrompt; PrintPrompt; PrintPrompt] /\
    ~ In PrintGoodbye (console self').
Proof.
  pose proof default_input_never_ends_session as (Hnever & Hspin & _).
  destruct (Hspin 0 3 hello_session) as (self' & Hrun & Hc & _).
  exists self'. split; [exact Hrun|]. split; [exact Hc|].
  apply (Hnever 0 [EndOfInput; EndOfInput; EndOfInput] hello_session self');
    [exact Hrun|]. intros [].
Defined.

Lemma overwriting_echo_keeps_one_entry :
  length (tools (add_tool echo_session (named_tool "echo" "Again"))) = 1 /\
  dict_get "echo" (tools (add_tool echo_session (named_tool "echo" "Again"))) =
    Some (named_tool "echo" "Again") /\
  dict_get "ghost" (tools (add_tool echo_session (named_tool "echo" "Again"))) = None.
Proof.
  destruct (add_tool_inserts_or_overwrites echo_session (named_tool "echo" "Again"))
    as (Hget & Hother & Hlen & _).
  split; [exact Hlen|]. split; [exact Hget|].
  rewrite (Hother "ghost"); [reflexivity|discriminate].
Defined.

Lemma listing_session_leaves_world :
  exists self',
    run 2 [Line "what is in docs?"] listing_agent = Some self' /\
    fs (world self') = fs docs_world /\ spawned (world self') = [].
Proof.
  pose proof read_only_agents_leave_world as (_ & _ & Happ).
  destruct (run 2 [Line "what is in docs?"] listing_agent) as [self'|] eqn:E;
    [|discriminate E].
  exists self'. split; [reflexivity|]. exact (Happ _ _ _ 2 _ self' E).
Defined.

Lemma blank_command_instance :
  SafeBashTool.execute SafeBashTool.DANGEROUS_PATTERNS
    {| SafeBashTool.command := "   " |} empty_world =
  ("Error: Empty command provided", empty_world).
Proof.
  apply (bash_rejects_blank_command _ {| SafeBashTool.command := "   " |}).
  reflexivity.
Defined.



Lemma uname_runs_alone :
  spawned (snd (SafeBashTool.execute SafeBashTool.DANGEROUS_PATTERNS
                  {| SafeBashTool.command := "uname" |} empty_world)) =
    [["bash"; "-c"; "uname"]].
Proof.
  apply (every_safe_command_runs_alone SafeBashTool.DANGEROUS_PATTERNS "uname"
                                       empty_world).
  - reflexivity.
  - cbn. tauto.
Defined.

Lemma edit_notes_reports_three :
  exists w',
    EditFileTool.execute_return edit_notes docs_world =
      (EditFileTool.Edited ["docs"; "notes.txt"] 3, w') /\
    Pathlib.node_at (fs w') ["docs"; "notes.txt"] =
      Some (Pathlib.File true (Some "xy-b-xy-b-xy")) /\
    fs w' !! ["docs"; "other.txt"] = None.
Proof.
  destruct (EditFileTool.execute_return edit_notes docs_world) as [r w'] eqn:E.
  assert (Hr : r = EditFileTool.Edited ["docs"; "notes.txt"] 3)
    by (apply (f_equal fst) in E; exact (eq_sym E)).
  subst r.
  destruct (edit_success_reports_and_touches_only_target edit_notes docs_world _ _ _ E)
    as (_ & _ & c & Hprev & _ & Hnode & Hother & _).
  exists w'. split; [reflexivity|].
  destruct Hprev as [Hprev|[Hprev _]]; [|discriminate Hprev].
  injection Hprev as <-. split; [exact Hnode|].
  rewrite (Hother ["docs"; "other.txt"]);
    [reflexivity | vm_compute; lia | vm_compute; discriminate].
Defined.

Lemma edit_missing_changes_nothing :
  EditFileTool.execute edit_missing docs_world =
    ("String not found in file: 'zzz'", docs_world).
Proof.
  destruct (edit_failure_changes_nothing edit_missing docs_world docs_exist)
    as [_ Herr].
  apply (Herr true "a-b-a-b-a"); reflexivity.
Defined.



Lemma format_1280_bytes :
  exists t,
    ListFilesTool._format_size 1280 = ListFilesTool.fmt_tenths t +:+ " KB" /\
    N.even t = true.
Proof.
  destruct (format_size_nearest_tenth 1280) as [_ Hunit]; [reflexivity|].
  destruct (Hunit " KB" ListFilesTool.KB) as (t & Hf & _ & _ & Heven).
  { left. unfold ListFilesTool.KB, ListFilesTool.MB.
    split; [lia|split; reflexivity]. }
  exists t. split; [exact Hf|]. apply (Heven 12%N). reflexivity.
Defined.

Lemma listing_of_docs :
  exists names lines,
    (In "notes.txt" names) /\
    Forall2 (shown_as (fun _ => 0%N) (fs docs_world) ["docs"]) names lines /\
    ListFilesTool.execute_return (fun _ => 0%N)
      {| ListFilesTool.path := Some "docs" |} docs_world =
      match lines with
      | [] => ListFilesTool.Empty ["docs"]
      | _ => ListFilesTool.Contents ["docs"] lines
      end.
Proof.
  destruct (list_files_shows_sorted_entries (fun _ => 0%N)
              {| ListFilesTool.path := Some "docs" |} docs_world)
    as (names & lines & Hin & _ & _ & Hshown & Hexec & _); [reflexivity|].
  exists names, lines. split; [|split; [exact Hshown|exact Hexec]].
  apply Hin. split; [reflexivity|]. eexists. reflexivity.
Defined.


Lemma listing_without_path :
  fst (Base.__call__ (list_files_tool (fun _ => 0%N)) ∅ docs_world) =
  inr ("Contents of .:" +:+ PyStr.nl +:+ "docs/").
Proof.
  destruct (list_files_defaults_to_current_directory (fun _ => 0%N) ∅ docs_world)
    as [Hdefault _].
  destruct Hdefault as [Hcall _]; [now left|]. now rewrite Hcall.
Defined.

Lemma workshop_advertises_four_tools :
  exists self',
    run 1 [Line "hi"] workshop_agent = Some self' /\
    Forall (fun r => option_map (map tool_name) (request_tools r) =
                     Some ["read_file"; "list_files"; "bash"; "edit_file"])
           (requests self').
Proof.
  destruct (run 1 [Line "hi"] workshop_agent) as [self'|] eqn:E; [|discriminate E].
  exists self'. split; [reflexivity|].
  destruct (apps_advertise_their_tools (client_text "Done.") docs_world
              SafeBashTool.DANGEROUS_PATTERNS (fun _ => 0%N) 1 [Line "hi"] self')
    as (_ & _ & _ & _ & Hedit).
  eapply List.Forall_impl; [|exact (Hedit E)].
  intros r Hr. now rewrite Hr.
Defined.

Lemma blank_line_instance :
  session 1 [Line "  "; EndOfInput] hello_session =
    session 1 [EndOfInput] (print hello_session PrintPrompt).
Proof.
  apply (blank_line_is_skipped 1 "  " [EndOfInput] hello_session). reflexivity.
Defined.

Lemma edit_notes_length_accounts :
  exists c c',
    Pathlib.read_text (fs docs_world) ["docs"; "notes.txt"] = inr c /\
    Pathlib.read_text (fs (snd (EditFileTool.execute_return edit_notes docs_world)))
                      ["docs"; "notes.txt"] = inr c' /\
    String.length c' + 3 * 1 = String.length c + 3 * 2.
Proof.
  destruct (EditFileTool.execute_return edit_notes docs_world) as [r w'] eqn:E.
  assert (Hr : r = EditFileTool.Edited ["docs"; "notes.txt"] 3)
    by (apply (f_equal fst) in E; exact (eq_sym E)).
  subst r.
  destruct (edit_count_accounts_for_length edit_notes docs_world _ _ _ E)
    as (c & c' & Hprev & Hnew & Hlen).
  exists c, c'. destruct Hprev as [Hprev|[Hprev _]]; [|discriminate Hprev].
  split; [exact Hprev|]. split; [exact Hnew|exact Hlen].
Defined.

Lemma empty_old_str_on_notes :
  fst (EditFileTool.execute_return
         {| EditFileTool.path := "docs/notes.txt";
            EditFileTool.old_str := ""; EditFileTool.new_str := "+" |} docs_world) =
  EditFileTool.Edited ["docs"; "notes.txt"] 10.
Proof.
  destruct (edit_with_empty_old_str_interleaves
              {| EditFileTool.path := "docs/notes.txt";
                 EditFileTool.old_str := ""; EditFileTool.new_str := "+" |}
              docs_world "a-b-a-b-a") as (E & _);
    [reflexivity | exact docs_exist | reflexivity |].
  now rewrite E.
Defined.

End MoreInstances.
